(** * hurst_inference: the volatility-pattern driver ([output_pattern.py])

    A shallow embedding of the driver script and of the parts of the
    estimation core it talks to, together with the properties the
    specification states about them.

    Numbers.  The script computes with numpy [float64] values.  They are
    idealised here as real numbers: rounding and [nan] are outside the
    model.  The one special value the script itself writes, [np.inf] (the
    default threshold), is kept as an explicit constructor.  Python [int]s
    (lengths, indices, the window sizes) are [Z]; positions inside Rocq
    lists are [nat].

    Exceptions.  A Python exception aborts the script; a computation that
    may raise returns a [result], and [bind] threads the first exception
    through. *)

From Stdlib Require Import Ascii String Reals Lra Lia ZArith Bool List.
Import ListNotations.

(** ** Python: exceptions, [range], slices *)

Module Py.

Inductive exn : Type :=
| ValueError
| IndexError
| ConfigurationError
| InsufficientDataError.

Inductive result (A : Type) : Type :=
| Ok (a : A)
| Raise (e : exn).

Arguments Ok {A} a.
Arguments Raise {A} e.

Definition bind {A B : Type} (c : result A) (k : A -> result B) : result B :=
  match c with
  | Ok a => k a
  | Raise e => Raise e
  end.

(** [[f(x) for x in xs]], stopping at the first exception. *)
Fixpoint mapM {A B : Type} (f : A -> result B) (xs : list A) : result (list B) :=
  match xs with
  | [] => Ok []
  | x :: xs' =>
      bind (f x) (fun y => bind (mapM f xs') (fun ys => Ok (y :: ys)))
  end.

Definition len {A : Type} (l : list A) : Z := Z.of_nat (length l).

(** Number of items of [range(start, stop, step)] for [step <> 0]. *)
Definition range_length (start stop step : Z) : Z :=
  if (0 <? step)%Z then
    if (start <? stop)%Z then ((stop - start - 1) / step + 1)%Z else 0%Z
  else
    if (stop <? start)%Z then ((start - stop - 1) / (- step) + 1)%Z else 0%Z.

(** [range(start, stop, step)]; a zero step is a [ValueError]. *)
Definition range (start stop step : Z) : result (list Z) :=
  if (step =? 0)%Z then Raise ValueError
  else Ok (map (fun i => (start + Z.of_nat i * step)%Z)
               (seq 0 (Z.to_nat (range_length start stop step)))).

(** A slice bound: negative bounds count from the end, and every bound is
    clamped into [0 .. len]. *)
Definition clamp (n : Z) (i : Z) : Z :=
  if (i <? 0)%Z then Z.max (i + n) 0 else Z.min i n.

(** [l[lo:hi]]; [None] is an omitted bound. *)
Definition slice {A : Type} (l : list A) (lo hi : option Z) : list A :=
  let n := len l in
  let lo' := match lo with Some i => clamp n i | None => 0%Z end in
  let hi' := match hi with Some i => clamp n i | None => n end in
  firstn (Z.to_nat (hi' - lo')) (skipn (Z.to_nat lo') l).

End Py.

Export Py.

Declare Scope py_scope.
Notation "x <- c ;; k" := (bind c (fun x => k))
  (at level 61, c at next level, right associativity) : py_scope.
Open Scope py_scope.

(** ** numpy: the array operations the driver uses *)

Module Np.

Open Scope R_scope.

(** A numpy value as the driver sees it: a float or a one-dimensional
    array. *)
Inductive npval : Type :=
| Num (x : R)
| Arr (xs : list R).

(** The threshold variable of the driver: [np.inf], a float, or an array of
    local values. *)
Inductive ext : Type :=
| Fin (t : R)
| PInf.

Inductive threshold : Type :=
| Scalar (t : ext)
| Local (ts : list R).

Definition Rgtb (a b : R) : bool := if Rgt_dec a b then true else false.
Definition Rleb (a b : R) : bool := if Rle_dec a b then true else false.

(** [a > t] for a float [a] and a threshold value [t]. *)
Definition gtb_ext (a : R) (t : ext) : bool :=
  match t with
  | Fin t => Rgtb a t
  | PInf => false
  end.

Fixpoint zip_with {A B C : Type} (f : A -> B -> C) (xs : list A) (ys : list B)
  : list C :=
  match xs, ys with
  | x :: xs', y :: ys' => f x y :: zip_with f xs' ys'
  | _, _ => []
  end.

(** A binary operation on two one-dimensional arrays, with numpy's
    broadcasting: equal lengths go element by element, an array of length
    one is stretched, anything else is a [ValueError]. *)
Definition broadcast2 {A B C : Type} (f : A -> B -> C) (xs : list A) (ys : list B)
  : result (list C) :=
  if Nat.eqb (length xs) (length ys) then Ok (zip_with f xs ys)
  else match xs, ys with
       | [x], _ => Ok (map (f x) ys)
       | _, [y] => Ok (map (fun x => f x y) xs)
       | _, _ => Raise ValueError
       end.

(** [np.log]; prices are positive, where [ln] is the logarithm. *)
Definition log (xs : list R) : list R := map ln xs.

Definition abs (xs : list R) : list R := map Rabs xs.

Definition subtract (xs ys : list R) : result (list R) :=
  broadcast2 Rminus xs ys.

(** [xs > t]. *)
Definition greater (xs : list R) (t : threshold) : result (list bool) :=
  match t with
  | Scalar t => Ok (map (fun x => gtb_ext x t) xs)
  | Local ts => broadcast2 Rgtb xs ts
  end.

Fixpoint sum (xs : list R) : R :=
  match xs with
  | [] => 0
  | x :: xs' => x + sum xs'
  end.

Definition mean (xs : list R) : R := sum xs / INR (length xs).

(** [np.std] with its default [ddof=0]: the square root of the mean of the
    squared deviations from the mean (the divisor is the number of
    elements).  On an empty array numpy yields [nan]; the real-number model
    yields [0] there, where there is no increment to compare with it. *)
Definition var (xs : list R) : R :=
  mean (map (fun x => (x - mean xs) * (x - mean xs)) xs).

Definition std (xs : list R) : R := sqrt (var xs).

(** [np.sqrt] and the product with a float, on a float or an array.  numpy
    yields [nan] for the root of a negative number; the model uses the real
    square root. *)
Definition np_sqrt (v : npval) : npval :=
  match v with
  | Num x => Num (sqrt x)
  | Arr xs => Arr (map sqrt xs)
  end.

Definition times (v : npval) (c : R) : npval :=
  match v with
  | Num x => Num (x * c)
  | Arr xs => Arr (map (fun x => x * c) xs)
  end.

Definition scaled (c : R) (v : npval) : npval :=
  match v with
  | Num x => Num (c * x)
  | Arr xs => Arr (map (fun x => c * x) xs)
  end.

Definition as_threshold (v : npval) : threshold :=
  match v with
  | Num x => Scalar (Fin x)
  | Arr xs => Local xs
  end.

(** [np.where(mask)[0]]: the positions of the [True] entries. *)
Fixpoint where_from (i : Z) (mask : list bool) : list Z :=
  match mask with
  | [] => []
  | b :: mask' =>
      if b then i :: where_from (i + 1)%Z mask' else where_from (i + 1)%Z mask'
  end.

Definition where_ (mask : list bool) : list Z := where_from 0%Z mask.

(** One positional lookup [a[i]]: negative positions count from the end,
    anything outside is an [IndexError]. *)
Definition item {A : Type} (a : list A) (i : Z) : result A :=
  let j := if (i <? 0)%Z then (i + len a)%Z else i in
  if (j <? 0)%Z then Raise IndexError
  else match nth_error a (Z.to_nat j) with
       | Some x => Ok x
       | None => Raise IndexError
       end.

(** [a[indices]] with an integer index array (also [Series.iloc]). *)
Definition take {A : Type} (a : list A) (indices : list Z) : result (list A) :=
  mapM (item a) indices.

End Np.

Export Np.

(** ** The driver script *)

Module Driver.

Open Scope R_scope.
Open Scope string_scope.

Section Collaborators.

(** [bipower_average_V] is imported from [volatility]; the driver only calls
    it, so it enters as a parameter: it returns a float or an array, or
    raises. *)
Variable bipower_average_V : list R -> Z -> R -> result npval.

(** The aggregation [volatility_pattern], imported from [volatility], over
    whatever the estimator returns for one day. *)
Variables Volatility Pattern : Type.
Variable volatility_pattern : list Volatility -> result Pattern.

(** [log_price = np.log(price_array)] *)
Definition log_price (price_array : list R) : list R := Np.log price_array.

(** [increments = log_price[1:] - log_price[:-1]] *)
Definition increments (log_price : list R) : result (list R) :=
  Np.subtract (slice log_price (Some 1%Z) None)
              (slice log_price None (Some (-1)%Z)).

(** The threshold selection: [np.inf] unless one of the four branches
    assigns another value. *)
Definition truncationValue (truncation_method : string)
    (increments log_price : list R) (window : Z) (delta : R)
  : result threshold :=
  if truncation_method =? "STD3" then
    Ok (Scalar (Fin (3 * Np.std increments)))
  else if truncation_method =? "STD5" then
    Ok (Scalar (Fin (5 * Np.std increments)))
  else if truncation_method =? "BIVAR3" then
    bav <- bipower_average_V log_price window delta ;;
    Ok (as_threshold (scaled 3 (np_sqrt (times bav delta))))
  else if truncation_method =? "BIVAR5" then
    bav <- bipower_average_V log_price window delta ;;
    Ok (as_threshold (scaled 5 (np_sqrt (times bav delta))))
  else
    Ok (Scalar PInf).

(** [truncated_points = np.abs(increments) > truncationValue] *)
Definition truncated_points (increments : list R) (truncationValue : threshold)
  : result (list bool) :=
  Np.greater (Np.abs increments) truncationValue.

(** [truncated_indices = np.where(truncated_points)[0] + 1] *)
Definition truncated_indices (truncated_points : list bool) : list Z :=
  map (fun i => (i + 1)%Z) (where_ truncated_points).

(** The three steps in a row, from the prices of one day to the flags. *)
Definition flags (truncation_method : string) (price_array : list R)
    (window : Z) (delta : R) : result (list bool) :=
  let lp := log_price price_array in
  incs <- increments lp ;;
  tv <- truncationValue truncation_method incs lp window delta ;;
  truncated_points incs tv.

(** [vol_DT = price.get_DT()[:len(price_array) - window]] *)
Definition vol_DT {T : Type} (DT : list T) (price_array : list R) (window : Z)
  : list T :=
  slice DT None (Some (len price_array - window)%Z).

(** [ax2.plot(vol_DT, vol.get_values())]: the curve pairs the two sequences
    position by position; matplotlib refuses sequences of different
    lengths with a [ValueError]. *)
Definition plotted {T V : Type} (DT : list T) (price_array : list R)
    (window : Z) (values : list V) : result (list (T * V)) :=
  let xs := vol_DT DT price_array window in
  if Nat.eqb (length xs) (length values) then Ok (combine xs values)
  else Raise ValueError.

(** The arguments of [ax1.scatter]:
    [price.df['DT'].iloc[truncated_indices]] and
    [price_array[truncated_indices]]. *)
Definition scatter_points {T : Type} (DT : list T) (price_array : list R)
    (truncated_indices : list Z) : result (list T * list R) :=
  xs <- take DT truncated_indices ;;
  ys <- take price_array truncated_indices ;;
  Ok (xs, ys).

(** The rolling loop:
    [for start in range(0, len(all_vols) - window_pattern + 1, window_pattern):
       slice_vols = all_vols[start:start+window_pattern]
       small_patterns.append(volatility_pattern(slice_vols))]. *)
Definition slice_vols (all_vols : list Volatility) (window_pattern start : Z)
  : list Volatility :=
  slice all_vols (Some start) (Some (start + window_pattern)%Z).

Definition small_patterns (all_vols : list Volatility) (window_pattern : Z)
  : result (list Pattern) :=
  starts <- range 0 (len all_vols - window_pattern + 1) window_pattern ;;
  mapM (fun start => volatility_pattern (slice_vols all_vols window_pattern start))
       starts.

(** The slices the loop forms, in order; it hands each of them to
    [volatility_pattern] as long as no call raises. *)
Definition passed_slices (all_vols : list Volatility) (window_pattern : Z)
  : result (list (list Volatility)) :=
  starts <- range 0 (len all_vols - window_pattern + 1) window_pattern ;;
  Ok (map (slice_vols all_vols window_pattern) starts).

End Collaborators.

End Driver.

Arguments Driver.slice_vols {Volatility} all_vols window_pattern start.
Arguments Driver.passed_slices {Volatility} all_vols window_pattern.
Arguments Driver.small_patterns {Volatility Pattern} volatility_pattern all_vols window_pattern.

(** ** Python strings: [startswith], [split], [replace] *)

Module Str.

Local Open Scope string_scope.

(** [s.startswith(p)] *)
Definition startswith (s p : string) : bool := String.prefix p s.

(** The scan of [s.split(sep)] for a non-empty [sep]: [cur] is the part
    collected so far, [skip] counts the characters of a separator just
    found that are still to be passed over. *)
Fixpoint split_from (sep : string) (skip : nat) (cur s : string) : list string :=
  match s with
  | EmptyString => [cur]
  | String c s' =>
      match skip with
      | S k => split_from sep k cur s'
      | O =>
          if String.prefix sep s
          then cur :: split_from sep (String.length sep - 1) EmptyString s'
          else split_from sep 0 (cur ++ String c EmptyString) s'
      end
  end.

(** [s.split(sep)]; an empty separator is a [ValueError]. *)
Definition split (s sep : string) : result (list string) :=
  match sep with
  | EmptyString => Raise ValueError
  | _ => Ok (split_from sep 0 EmptyString s)
  end.

(** The scan of [s.replace(old, new)] for a non-empty [old]: occurrences
    are replaced from left to right and do not overlap. *)
Fixpoint replace_from (old new : string) (skip : nat) (s : string) : string :=
  match s with
  | EmptyString => EmptyString
  | String c s' =>
      match skip with
      | S k => replace_from old new k s'
      | O =>
          if String.prefix old s
          then new ++ replace_from old new (String.length old - 1) s'
          else String c (replace_from old new 0 s')
      end
  end.

(** With an empty [old], [new] goes before every character and at the
    end. *)
Fixpoint interleave (new s : string) : string :=
  match s with
  | EmptyString => new
  | String c s' => new ++ String c (interleave new s')
  end.

(** [s.replace(old, new)] *)
Definition replace (s old new : string) : string :=
  match old with
  | EmptyString => interleave new s
  | _ => replace_from old new 0 s
  end.

End Str.

(** ** The driver script: the dates on file *)

Module Files.

Local Open Scope string_scope.

(** [all_price_files = [f for f in DH.price_files if f.startswith(asset+'_')]] *)
Definition all_price_files (price_files : list string) (asset : string)
  : list string :=
  filter (fun f => Str.startswith f (asset ++ "_")) price_files.

(** [f.split('_')[1].replace('.csv','')] *)
Definition date_of (f : string) : result string :=
  parts <- Str.split f "_" ;;
  part <- item parts 1 ;;
  Ok (Str.replace part ".csv" "").

(** [all_dates = [... for f in all_price_files]], followed by the check
    [if len(all_dates) < N_examples: raise ValueError(...)]. *)
Definition all_dates (all_price_files : list string) : result (list string) :=
  mapM date_of all_price_files.

Definition checked_dates (price_files : list string) (asset : string)
    (N_examples : Z) : result (list string) :=
  dates <- all_dates (all_price_files price_files asset) ;;
  if (len dates <? N_examples)%Z then Raise ValueError else Ok dates.

End Files.

(** ** The estimation core, as the specification describes it

    [volatility.py] is not among the sources; the driver imports
    [VolatilityEstimator], [volatility_pattern] and [bipower_average_V] from
    it.  What the statements below need of the first two is modelled from the
    specification's text. *)

Module Core.

Open Scope R_scope.
Open Scope string_scope.

(** Modelled from the spec: an estimate of one window of the absent
    estimator, a value or the explicit flag for a window in which every
    increment was truncated. *)
Inductive estimate : Type :=
| Defined (v : R)
| Undefined.

(** Modelled from the spec: the increment sequence of section 3 (computed
    inside the absent estimator),
    [increment[i] = log_price[i+1] - log_price[i]]. *)
Fixpoint diffs (log_price : list R) : list R :=
  match log_price with
  | a :: (b :: _) as rest => (b - a) :: diffs rest
  | _ => []
  end.

Definition leb_ext (a : R) (t : ext) : bool :=
  match t with
  | Fin t => Rleb a t
  | PInf => true
  end.

(** Modelled from the spec: the sample standard deviation that section 4.2
    names for [FixedStd] (the policy is part of the absent estimator): the
    square root of the sum of the squared deviations from the mean over
    N - 1.  The specification says nothing for fewer than two increments. *)
Definition sample_std (xs : list R) : R :=
  sqrt (Np.sum (map (fun x => (x - Np.mean xs) * (x - Np.mean xs)) xs)
        / INR (length xs - 1)).

(** Modelled from the spec: the threshold of window position [i] (step 2 of
    the absent [VolatilityEstimator.compute]): the one global value, or the
    local value of that position.  The specification gives every position
    a value; a position without one truncates nothing here. *)
Definition window_threshold (thr : threshold) (i : nat) : ext :=
  match thr with
  | Scalar t => t
  | Local ts =>
      match nth_error ts i with
      | Some t => Fin t
      | None => PInf
      end
  end.

(** Modelled from the spec: step 1 of the estimator, the [window]
    consecutive increments that start at position [i]. *)
Definition window_increments (increments : list R) (window : Z) (i : nat)
  : list R :=
  firstn (Z.to_nat window) (skipn i increments).


(** Modelled from the spec: steps 1, 3, 4 and 5 of the estimator for window
    position [i]: the squares of the kept increments, summed and divided by
    [window * delta]; the explicit flag when none is kept. *)
Definition window_estimate (increments : list R) (thr : threshold)
    (window : Z) (delta : R) (i : nat) : estimate :=
  let local := window_increments increments window i in
  match filter (fun x => leb_ext (Rabs x) (window_threshold thr i)) local with
  | [] => Undefined
  | kept => Defined (Np.sum (map (fun x => x * x) kept)
                     / (IZR window * delta))
  end.

(** Modelled from the spec: the observation a window of the absent
    estimator starts at and the one it ends at; the window of [window]
    increments from [i] spans the observations [i .. i + window]. *)
Definition first_observation (i : nat) : nat := i.
Definition last_observation (window : Z) (i : nat) : nat :=
  (i + Z.to_nat window)%nat.

Section Estimator.

(** The averager of section 4.3, which hands over the bipower variance of
    every window position at once, or a single value. *)
Variable bipower_average_V : list R -> Z -> R -> result npval.

(** Modelled from the spec: the [TruncationPolicy] family of section 4.2
    (part of the absent [VolatilityEstimator]): [FixedStd(k)] is [k] times
    the sample standard deviation of the entire increment sequence,
    [AdaptiveBipower(k)] is [k] times the root of the bipower variance times
    [delta], and any other name is a [ConfigurationError]. *)
Definition policy (truncation_method : string)
    (increments log_price : list R) (window : Z) (delta : R)
  : result threshold :=
  if truncation_method =? "STD3" then
    Ok (Scalar (Fin (3 * sample_std increments)))
  else if truncation_method =? "STD5" then
    Ok (Scalar (Fin (5 * sample_std increments)))
  else if truncation_method =? "BIVAR3" then
    bv <- bipower_average_V log_price window delta ;;
    Ok (as_threshold (scaled 3 (np_sqrt (times bv delta))))
  else if truncation_method =? "BIVAR5" then
    bv <- bipower_average_V log_price window delta ;;
    Ok (as_threshold (scaled 5 (np_sqrt (times bv delta))))
  else
    Raise ConfigurationError.


(** Modelled from the spec: [VolatilityEstimator.compute] of section 4.4
    (absent from the sources), one estimate per window position
    [0 .. N - window - 1], each with the threshold of its own window. *)
Definition compute (truncation_method : string) (window : Z) (delta : R)
    (price_array : list R) : result (list estimate) :=
  if (window <=? 0)%Z then Raise ConfigurationError
  else if (len price_array <=? window)%Z then Raise InsufficientDataError
  else
    let lp := map ln price_array in
    let incs := diffs lp in
    thr <- policy truncation_method incs lp window delta ;;
    Ok (map (window_estimate incs thr window delta)
            (seq 0 (Z.to_nat (len price_array - window)))).

End Estimator.

(** Modelled from the spec: the [Volatility] container of section 4.5 and
    [pattern] of section 4.6 ([volatility_pattern], absent from the
    sources): the mean at every position up to the shortest input, and an
    [InsufficientDataError] on an empty list.  A position at which some day
    is flagged undefined stays flagged. *)
Record Volatility : Type := {
  get_values : list estimate;
  get_DT : list Z
}.

Definition Pattern : Type := list estimate.

Definition min_length (vols : list Volatility) : nat :=
  match vols with
  | [] => 0%nat
  | v :: vs =>
      fold_left Nat.min (map (fun w => length (get_values w)) vs)
                (length (get_values v))
  end.

Fixpoint all_defined (es : list (option estimate)) : option (list R) :=
  match es with
  | [] => Some []
  | Some (Defined v) :: es' =>
      match all_defined es' with
      | Some vs => Some (v :: vs)
      | None => None
      end
  | _ => None
  end.

Definition mean_at (vols : list Volatility) (i : nat) : estimate :=
  match all_defined (map (fun v => nth_error (get_values v) i) vols) with
  | Some vs => Defined (Np.mean vs)
  | None => Undefined
  end.

Definition volatility_pattern (vols : list Volatility) : result Pattern :=
  match vols with
  | [] => Raise InsufficientDataError
  | _ => Ok (map (mean_at vols) (seq 0 (min_length vols)))
  end.

End Core.

Export Driver.

(** ** Vocabulary of the statements *)

Open Scope R_scope.
Open Scope list_scope.

(** [a] exceeds the threshold value [t]; [a] is within it.  Nothing exceeds
    [np.inf]. *)
Definition exceeds (a : R) (t : ext) : Prop :=
  match t with
  | Fin t => a > t
  | PInf => False
  end.

Definition within (a : R) (t : ext) : Prop :=
  match t with
  | Fin t => a <= t
  | PInf => True
  end.

(** The threshold value that applies to the increment at position [i]. *)
Definition threshold_at (thr : threshold) (i : nat) : option ext :=
  match thr with
  | Scalar t => Some t
  | Local ts => option_map Fin (nth_error ts i)
  end.

(** A threshold is aligned to the increments when it is a single value or
    has one local value per increment. *)
Definition aligned (thr : threshold) (increments : list R) : Prop :=
  match thr with
  | Scalar _ => True
  | Local ts => length ts = length increments
  end.

(** The increments that are not flagged, in order and unchanged. *)
Definition unflagged (increments : list R) (mask : list bool) : list R :=
  map fst (filter (fun p => negb (snd p)) (combine increments mask)).

(** The increments that are within the threshold value that applies to
    them, in order. *)
Fixpoint within_threshold (increments : list R) (thr : threshold) (i : nat)
  : list R :=
  match increments with
  | [] => []
  | x :: rest =>
      match threshold_at thr i with
      | Some t =>
          if Core.leb_ext (Rabs x) t
          then x :: within_threshold rest thr (S i)
          else within_threshold rest thr (S i)
      | None => within_threshold rest thr (S i)
      end
  end.

Definition count_false (mask : list bool) : nat := length (filter negb mask).

Definition kept_if_kept (b1 b2 : bool) : Prop := b1 = false -> b2 = false.

(** The second mask keeps every increment the first one keeps, and so at
    least as many. *)
Definition keeps_more (m1 m2 : list bool) : Prop :=
  length m1 = length m2 /\
  (forall i, nth_error m1 i = Some false -> nth_error m2 i = Some false) /\
  (count_false m1 <= count_false m2)%nat.

Definition recognized (truncation_method : string) : bool :=
  ((truncation_method =? "STD3") || (truncation_method =? "STD5")
   || (truncation_method =? "BIVAR3") || (truncation_method =? "BIVAR5"))%string.

(** Strictly increasing timestamps. *)
Fixpoint increasing (ts : list Z) : Prop :=
  match ts with
  | a :: (b :: _) as rest => (a < b)%Z /\ increasing rest
  | _ => True
  end.

(** The [i]-th block of [w] consecutive elements, counted from the start. *)
Definition block {A : Type} (l : list A) (w : Z) (i : nat) : list A :=
  firstn (Z.to_nat w) (skipn (i * Z.to_nat w) l).

(** A handful of days for the examples: day [d] carries [n] estimates. *)
Definition example_day (n : nat) (v : R) : Core.Volatility :=
  {| Core.get_values := repeat (Core.Defined v) n;
     Core.get_DT := map Z.of_nat (seq 0 n) |}.

Definition example_days : list Core.Volatility :=
  [example_day 3 1; example_day 3 2; example_day 2 3; example_day 3 4;
   example_day 3 5].

(** The number of flagged positions of a mask. *)
Definition count_true (mask : list bool) : nat :=
  length (filter (fun b : bool => b) mask).

(** Whether a character occurs in a string. *)
Fixpoint occurs (c : Ascii.ascii) (s : string) : bool :=
  match s with
  | EmptyString => false
  | String a s' => Ascii.eqb a c || occurs c s'
  end.

(** A position is inside a sequence of length [n], counted from the start
    or, when negative, from the end. *)
Definition in_range (n i : Z) : Prop := (- n <= i < n)%Z.

(** A threshold none of whose values is negative. *)
Definition nonnegative (thr : threshold) : Prop :=
  match thr with
  | Scalar (Fin t) => 0 <= t
  | Scalar PInf => True
  | Local ts => Forall (fun t => 0 <= t) ts
  end.

(** The values whose square root the BIVAR branches take are not negative
    (numpy yields [nan] for the others). *)
Definition root_defined (bav : npval) (delta : R) : Prop :=
  match bav with
  | Num b => 0 <= b * delta
  | Arr bs => Forall (fun b => 0 <= b * delta) bs
  end.

(** Comparisons of concrete reals. *)
Ltac decide_reals :=
  unfold Rgtb, Rleb;
  repeat match goal with
         | |- context [Rgt_dec ?a ?b] => destruct (Rgt_dec a b)
         | |- context [Rle_dec ?a ?b] => destruct (Rle_dec a b)
         end;
  unfold Rabs in *;
  repeat match goal with
         | H : context [Rcase_abs ?a] |- _ => destruct (Rcase_abs a)
         end;
  try reflexivity; try lra.

(** * Properties *)

(** ** Comparisons *)

Lemma Rgtb_true_iff (a b : R) : Rgtb a b = true <-> a > b.
Proof.
  unfold Rgtb. destruct (Rgt_dec a b); split; intro H; auto; discriminate.
Qed.

Lemma Rgtb_false_iff (a b : R) : Rgtb a b = false <-> a <= b.
Proof.
  unfold Rgtb. destruct (Rgt_dec a b); split; intro H; auto; try discriminate; lra.
Qed.


Lemma Rleb_negb_Rgtb (a b : R) : Rleb a b = negb (Rgtb a b).
Proof.
  unfold Rleb, Rgtb.
  destruct (Rle_dec a b), (Rgt_dec a b); simpl; auto; lra.
Qed.

Lemma gtb_ext_true_iff (a : R) (t : ext) : gtb_ext a t = true <-> exceeds a t.
Proof.
  destruct t; simpl.
  - apply Rgtb_true_iff.
  - split; [discriminate | tauto].
Qed.

Lemma gtb_ext_false_iff (a : R) (t : ext) : gtb_ext a t = false <-> within a t.
Proof.
  destruct t; simpl.
  - apply Rgtb_false_iff.
  - tauto.
Qed.

Lemma leb_ext_negb_gtb_ext (a : R) (t : ext) :
  Core.leb_ext a t = negb (gtb_ext a t).
Proof.
  destruct t; simpl; [apply Rleb_negb_Rgtb | reflexivity].
Qed.

(** ** Lists *)

Lemma zip_with_length {A B C : Type} (f : A -> B -> C) (xs : list A) (ys : list B) :
  length xs = length ys -> length (zip_with f xs ys) = length xs.
Proof.
  revert ys; induction xs as [|x xs IH]; intros [|y ys] H; simpl in *;
    try discriminate; auto.
Qed.

Lemma zip_with_nth_error {A B C : Type} (f : A -> B -> C) (xs : list A) (ys : list B)
    (i : nat) (x : A) (y : B) :
  nth_error xs i = Some x -> nth_error ys i = Some y ->
  nth_error (zip_with f xs ys) i = Some (f x y).
Proof.
  revert ys i; induction xs as [|a xs IH]; intros [|b ys] [|i] Hx Hy;
    simpl in *; try discriminate.
  - congruence.
  - eauto.
Qed.

Lemma broadcast2_aligned {A B C : Type} (f : A -> B -> C) (xs : list A) (ys : list B) :
  length xs = length ys -> broadcast2 f xs ys = Ok (zip_with f xs ys).
Proof.
  intro H. unfold broadcast2. rewrite H, Nat.eqb_refl. reflexivity.
Qed.

Lemma skipn_cons_nth_error {A : Type} (l : list A) (i : nat) (a : A) (rest : list A) :
  skipn i l = a :: rest -> nth_error l i = Some a /\ skipn (S i) l = rest.
Proof.
  revert i; induction l as [|b l IH]; intros [|i] H; simpl in *;
    try discriminate.
  - inversion H; auto.
  - apply IH in H. destruct H as [H1 H2]. split; auto.
Qed.

(** ** The truncation rule *)

Lemma unflagged_scalar (increments : list R) (t : ext) (i : nat) :
  unflagged increments (map (fun x => gtb_ext x t) (Np.abs increments))
  = within_threshold increments (Scalar t) i.
Proof.
  revert i; induction increments as [|x rest IH]; intro i; simpl; auto.
  unfold unflagged in *; simpl.
  rewrite leb_ext_negb_gtb_ext.
  destruct (gtb_ext (Rabs x) t); simpl; rewrite (IH (S i)); reflexivity.
Qed.

Lemma unflagged_local (increments ts : list R) (i : nat) :
  length increments = length (skipn i ts) ->
  unflagged increments (zip_with Rgtb (Np.abs increments) (skipn i ts))
  = within_threshold increments (Local ts) i.
Proof.
  revert i; induction increments as [|x rest IH]; intros i H; simpl; auto.
  destruct (skipn i ts) as [|t rest'] eqn:E; simpl in H; try discriminate.
  apply skipn_cons_nth_error in E. destruct E as [Hi Hs].
  rewrite Hi; simpl. subst rest'.
  unfold unflagged in *; simpl.
  rewrite Rleb_negb_Rgtb.
  destruct (Rgtb (Rabs x) t); simpl; rewrite <- IH by lia; reflexivity.
Qed.

(** C1.  Whatever the increments and the threshold (a single value, finite
    or infinite, or one local value per increment), the driver's comparison
    succeeds with one flag per increment; the increment at a position is
    flagged as truncated exactly when its absolute value exceeds the
    threshold that applies to it and is left unflagged exactly when its
    absolute value is at most that threshold; the unflagged increments are
    the increments within the threshold, in order and with their own
    values. *)
Theorem truncation_rule (increments : list R) (thr : threshold) :
  aligned thr increments ->
  exists mask,
    truncated_points increments thr = Ok mask /\
    length mask = length increments /\
    (forall i x t,
        nth_error increments i = Some x -> threshold_at thr i = Some t ->
        (nth_error mask i = Some true <-> exceeds (Rabs x) t) /\
        (nth_error mask i = Some false <-> within (Rabs x) t)) /\
    unflagged increments mask = within_threshold increments thr 0.
Proof.
  intro Hal. unfold truncated_points, Np.greater.
  destruct thr as [t | ts]; simpl in *.
  - eexists; split; [reflexivity|].
    split; [unfold Np.abs; now rewrite !length_map|].
    split; [|apply unflagged_scalar].
    intros i x t' Hx Ht. inversion Ht; subst t'.
    unfold Np.abs. rewrite map_map.
    rewrite (map_nth_error (fun x0 => gtb_ext (Rabs x0) t) i increments Hx).
    rewrite <- gtb_ext_true_iff, <- gtb_ext_false_iff.
    split; split; intro H; congruence.
  - rewrite broadcast2_aligned by (unfold Np.abs; rewrite length_map; lia).
    eexists; split; [reflexivity|].
    split; [rewrite zip_with_length; unfold Np.abs; rewrite length_map; lia|].
    split; [|apply (unflagged_local increments ts 0); simpl; lia].
    intros i x t Hx Ht.
    destruct (nth_error ts i) as [t0|] eqn:E; simpl in Ht; inversion Ht; subst t.
    rewrite (@zip_with_nth_error _ _ _ Rgtb (Np.abs increments) ts i (Rabs x) t0);
      [| unfold Np.abs; now apply map_nth_error | assumption].
    simpl. rewrite <- Rgtb_true_iff, <- Rgtb_false_iff.
    split; split; intro H; congruence.
Qed.

Lemma truncation_rule_witness :
  aligned (Local [2; 2; 2]) [1; -3; 2] /\
  exists mask,
    truncated_points [1; -3; 2] (Local [2; 2; 2]) = Ok mask /\
    length mask = length [1; -3; 2] /\
    (forall i x t,
        nth_error [1; -3; 2] i = Some x ->
        threshold_at (Local [2; 2; 2]) i = Some t ->
        (nth_error mask i = Some true <-> exceeds (Rabs x) t) /\
        (nth_error mask i = Some false <-> within (Rabs x) t)) /\
    unflagged [1; -3; 2] mask = within_threshold [1; -3; 2] (Local [2; 2; 2]) 0.
Proof.
  split; [reflexivity | apply truncation_rule; reflexivity].
Defined.

(** ** Threshold selection *)

Section Thresholds.

Variable bipower_average_V : list R -> Z -> R -> result npval.

Lemma unrecognized_branches (m : string) :
  recognized m = false ->
  (m =? "STD3")%string = false /\ (m =? "STD5")%string = false /\
  (m =? "BIVAR3")%string = false /\ (m =? "BIVAR5")%string = false.
Proof.
  unfold recognized. intro H.
  repeat (apply orb_false_iff in H; destruct H as [H ?]). auto.
Qed.

(** C2, as the driver has it.  For every method name that is none of STD3,
    STD5, BIVAR3 and BIVAR5 the driver's threshold selection does not fail:
    it keeps its initial value, [np.inf], under which no increment is
    flagged as truncated. *)
Theorem unrecognized_method_truncates_nothing
    (m : string) (increments log_price : list R) (window : Z) (delta : R) :
  recognized m = false ->
  truncationValue bipower_average_V m increments log_price window delta
    = Ok (Scalar PInf) /\
  truncated_points increments (Scalar PInf)
    = Ok (map (fun _ => false) increments).
Proof.
  intro H. apply unrecognized_branches in H.
  destruct H as (H1 & H2 & H3 & H4).
  unfold truncationValue. rewrite H1, H2, H3, H4. split; [reflexivity|].
  unfold truncated_points, Np.greater, Np.abs. rewrite map_map. reflexivity.
Qed.

Lemma std_nonneg (xs : list R) : 0 <= Np.std xs.
Proof. apply sqrt_pos. Qed.

Lemma sum_squares_nonneg (c : R) (xs : list R) :
  0 <= Np.sum (map (fun x => (x - c) * (x - c)) xs).
Proof.
  induction xs as [|x xs IH]; simpl; [lra|].
  pose proof (Rle_0_sqr (x - c)) as H. unfold Rsqr in H. lra.
Qed.

Lemma var_nonneg (xs : list R) : 0 <= Np.var xs.
Proof.
  unfold Np.var, Np.mean at 1. rewrite length_map.
  pose proof (sum_squares_nonneg (Np.mean xs) xs) as Hs.
  destruct xs as [|x xs].
  - simpl. unfold Rdiv. rewrite Rinv_0. lra.
  - apply Rmult_le_pos; [exact Hs|].
    apply Rlt_le, Rinv_0_lt_compat, lt_0_INR. simpl; lia.
Qed.

(** [np.std] is the non-negative root of the mean squared deviation: its
    square times the number of elements is the sum of the squared
    deviations. *)
Lemma std_squared (xs : list R) :
  Np.std xs * Np.std xs * INR (length xs)
  = Np.sum (map (fun x => (x - Np.mean xs) * (x - Np.mean xs)) xs).
Proof.
  unfold Np.std. rewrite sqrt_sqrt by apply var_nonneg.
  unfold Np.var, Np.mean at 1. rewrite length_map.
  destruct xs as [|x xs].
  - simpl. lra.
  - field. apply not_0_INR. simpl; lia.
Qed.

Lemma scalar_flag (incs : list R) (t : ext) (i : nat) (x : R) :
  nth_error incs i = Some x ->
  nth_error (map (fun a => gtb_ext a t) (Np.abs incs)) i
  = Some (gtb_ext (Rabs x) t).
Proof.
  intro H. unfold Np.abs. rewrite map_map.
  apply (map_nth_error (fun a => gtb_ext (Rabs a) t) i incs H).
Qed.

Lemma sum_fold (xs : list R) : Np.sum xs = fold_right Rplus 0 xs.
Proof. induction xs as [|x xs IH]; simpl; [reflexivity | now rewrite IH]. Qed.

(** C3, as the driver has it.  Under STD3 and STD5 the threshold is one
    value for the whole day, three (five) times the standard deviation of
    the entire increment sequence as [np.std] computes it by default: the
    non-negative root of the mean squared deviation, with divisor N (not the
    N - 1 of the sample standard deviation).  It depends neither on the
    window nor on the log-prices handed over, the same value applies at
    every position, and every increment of the day is compared with that
    one value. *)
Theorem fixed_std_threshold (increments : list R) :
  (forall log_price window delta,
      truncationValue bipower_average_V "STD3" increments log_price window delta
      = Ok (Scalar (Fin (3 * Np.std increments)))) /\
  (forall log_price window delta,
      truncationValue bipower_average_V "STD5" increments log_price window delta
      = Ok (Scalar (Fin (5 * Np.std increments)))) /\
  0 <= Np.std increments /\
  (let n := INR (length increments) in
   let mu := fold_right Rplus 0 increments / n in
   Np.std increments * Np.std increments * n
   = fold_right Rplus 0 (map (fun x => (x - mu) * (x - mu)) increments)) /\
  (forall k i, threshold_at (Scalar (Fin (k * Np.std increments))) i
               = Some (Fin (k * Np.std increments))) /\
  (forall k, exists mask,
      truncated_points increments (Scalar (Fin (k * Np.std increments))) = Ok mask /\
      forall i x, nth_error increments i = Some x ->
                  (nth_error mask i = Some true
                   <-> Rabs x > k * Np.std increments)).
Proof.
  split; [reflexivity|]. split; [reflexivity|].
  split; [apply std_nonneg|].
  split.
  { cbv zeta. rewrite std_squared, sum_fold.
    replace (Np.mean increments)
      with (fold_right Rplus 0 increments / INR (length increments))
      by (unfold Np.mean, Rdiv; f_equal; symmetry; apply sum_fold).
    reflexivity. }
  split; [reflexivity|].
  intro k. eexists; split; [reflexivity|].
  intros i x Hx.
  rewrite (scalar_flag increments (Fin (k * Np.std increments)) i x Hx).
  simpl. rewrite <- Rgtb_true_iff. split; intro H; congruence.
Qed.

(** C4.  Under BIVAR3 and BIVAR5 the threshold is three (five) times the
    square root of the product of [delta] and what [bipower_average_V]
    returns for the same log-prices, window and [delta]: one value when it
    returns a float, one value per entry when it returns an array. *)
Theorem adaptive_bipower_threshold
    (increments log_price : list R) (window : Z) (delta : R) (bav : npval) :
  bipower_average_V log_price window delta = Ok bav ->
  truncationValue bipower_average_V "BIVAR3" increments log_price window delta
    = Ok match bav with
         | Num b => Scalar (Fin (3 * sqrt (b * delta)))
         | Arr bs => Local (map (fun b => 3 * sqrt (b * delta)) bs)
         end /\
  truncationValue bipower_average_V "BIVAR5" increments log_price window delta
    = Ok match bav with
         | Num b => Scalar (Fin (5 * sqrt (b * delta)))
         | Arr bs => Local (map (fun b => 5 * sqrt (b * delta)) bs)
         end.
Proof.
  intro H. unfold truncationValue; simpl. rewrite H; simpl.
  destruct bav as [b | bs]; simpl; rewrite ?map_map; split; reflexivity.
Qed.

End Thresholds.

Lemma unrecognized_method_truncates_nothing_witness :
  recognized "NONE" = false /\
  truncationValue (fun _ _ _ => Ok (Num 0)) "NONE" [1; -3] [0; 1; -2] 2 1
    = Ok (Scalar PInf) /\
  truncated_points [1; -3] (Scalar PInf) = Ok (map (fun _ => false) [1; -3]).
Proof.
  split; [reflexivity|].
  apply (unrecognized_method_truncates_nothing
           (fun _ _ _ => Ok (Num 0)) "NONE" [1; -3] [0; 1; -2] 2 1).
  reflexivity.
Defined.

(** C2 as the specification words it does not hold: an unrecognized name
    does not make the selection fail. *)
Lemma unrecognized_method_not_rejected :
  ~ (forall (bav : list R -> Z -> R -> result npval) (m : string)
            (increments log_price : list R) (window : Z) (delta : R),
        recognized m = false ->
        truncationValue bav m increments log_price window delta
        = Raise ConfigurationError).
Proof.
  intro H.
  specialize (H (fun _ _ _ => Ok (Num 0)) "NONE"%string [1; -3] [0; 1; -2] 2%Z 1
                eq_refl).
  discriminate H.
Qed.

Lemma adaptive_bipower_threshold_witness :
  (fun (_ : list R) (_ : Z) (_ : R) => Ok (Arr [4; 9])) [0; 1; -2] 2%Z 1
    = Ok (Arr [4; 9]) /\
  truncationValue (fun _ _ _ => Ok (Arr [4; 9])) "BIVAR3" [1; -3] [0; 1; -2] 2 1
    = Ok (Local (map (fun b => 3 * sqrt (b * 1)) [4; 9])) /\
  truncationValue (fun _ _ _ => Ok (Arr [4; 9])) "BIVAR5" [1; -3] [0; 1; -2] 2 1
    = Ok (Local (map (fun b => 5 * sqrt (b * 1)) [4; 9])).
Proof.
  split; [reflexivity|].
  apply (adaptive_bipower_threshold
           (fun _ _ _ => Ok (Arr [4; 9])) [1; -3] [0; 1; -2] 2 1 (Arr [4; 9])).
  reflexivity.
Defined.

(** ** Increments *)

Lemma slice_tail {A : Type} (l : list A) : slice l (Some 1%Z) None = tl l.
Proof.
  unfold slice, clamp, len.
  change (1 <? 0)%Z with false. cbv iota.
  destruct l as [|a l]; [reflexivity|].
  cbn [length].
  replace (Z.min 1 (Z.of_nat (S (length l)))) with 1%Z by lia.
  replace (Z.to_nat (Z.of_nat (S (length l)) - 1)) with (length l) by lia.
  change (Z.to_nat 1) with 1%nat. cbn [skipn tl]. apply firstn_all.
Qed.

Lemma slice_init {A : Type} (l : list A) :
  slice l None (Some (-1)%Z) = firstn (pred (length l)) l.
Proof.
  unfold slice, clamp, len.
  change (-1 <? 0)%Z with true. cbv iota.
  replace (Z.to_nat (Z.max (-1 + Z.of_nat (length l)) 0 - 0))
    with (pred (length l)) by lia.
  reflexivity.
Qed.

Lemma zip_with_diffs (lp : list R) :
  zip_with Rminus (tl lp) (firstn (pred (length lp)) lp) = Core.diffs lp.
Proof.
  induction lp as [|a [|b rest] IH]; try reflexivity.
  simpl in IH. cbn [tl length pred firstn zip_with Core.diffs].
  f_equal. exact IH.
Qed.

Lemma diffs_length (lp : list R) : length (Core.diffs lp) = pred (length lp).
Proof.
  induction lp as [|a [|b rest] IH]; try reflexivity.
  cbn [Core.diffs length pred] in *. now rewrite IH.
Qed.

(** The driver's increments never raise and are the consecutive
    differences of the log-prices. *)
Lemma increments_diffs (lp : list R) : increments lp = Ok (Core.diffs lp).
Proof.
  unfold increments, Np.subtract. rewrite slice_tail, slice_init.
  rewrite broadcast2_aligned.
  - now rewrite zip_with_diffs.
  - rewrite length_firstn. destruct lp; simpl; lia.
Qed.

Lemma log_price_length (price_array : list R) :
  length (log_price price_array) = length price_array.
Proof. unfold log_price, Np.log. apply length_map. Qed.

(** ** Monotonicity in the multiplier *)

Lemma Forall2_keeps_more (m1 m2 : list bool) :
  Forall2 kept_if_kept m1 m2 -> keeps_more m1 m2.
Proof.
  unfold keeps_more, count_false.
  induction 1 as [|b1 b2 m1 m2 Hb Hm (IHl & IHn & IHc)]; simpl.
  - repeat split; auto; intros [|i]; discriminate.
  - split; [now rewrite IHl|]. split.
    + intros [|i]; simpl; intro H; [|now apply IHn].
      inversion H; subst. now rewrite Hb.
    + unfold kept_if_kept in Hb.
      destruct b1, b2; simpl in *; try lia; specialize (Hb eq_refl); discriminate Hb.
Qed.

Lemma Forall2_map_same {A B : Type} (P : B -> B -> Prop) (f g : A -> B)
    (xs : list A) :
  (forall x, P (f x) (g x)) -> Forall2 P (map f xs) (map g xs).
Proof.
  intro H. induction xs; simpl; constructor; auto.
Qed.

Lemma Rgtb_kept (a t1 t2 : R) : t1 <= t2 -> kept_if_kept (Rgtb a t1) (Rgtb a t2).
Proof.
  unfold kept_if_kept. rewrite !Rgtb_false_iff. lra.
Qed.

Lemma zip_with_gt_kept (xs ts1 ts2 : list R) :
  Forall2 Rle ts1 ts2 ->
  Forall2 kept_if_kept (zip_with Rgtb xs ts1) (zip_with Rgtb xs ts2).
Proof.
  intro H. revert xs.
  induction H as [|t1 t2 ts1 ts2 Ht Hts IH]; intros [|x xs]; simpl;
    constructor; auto using Rgtb_kept.
Qed.

Lemma map_gt_kept (x : R) (ts1 ts2 : list R) :
  Forall2 Rle ts1 ts2 ->
  Forall2 kept_if_kept (map (Rgtb x) ts1) (map (Rgtb x) ts2).
Proof.
  induction 1; simpl; constructor; auto using Rgtb_kept.
Qed.

(** Raising every local threshold keeps the comparison in the same
    broadcasting case and keeps every increment that was kept. *)
Lemma greater_local_monotone (xs ts1 ts2 : list R) (m1 : list bool) :
  Forall2 Rle ts1 ts2 ->
  Np.greater xs (Local ts1) = Ok m1 ->
  exists m2, Np.greater xs (Local ts2) = Ok m2 /\ keeps_more m1 m2.
Proof.
  intros H. pose proof (Forall2_length H) as Hlen.
  simpl. unfold broadcast2. rewrite <- Hlen.
  destruct (Nat.eqb (length xs) (length ts1)).
  - intro E; inversion E; subst m1. eexists; split; [reflexivity|].
    apply Forall2_keeps_more, zip_with_gt_kept, H.
  - destruct xs as [|x [|x' xs]].
    + destruct H as [|t1 t2 ts1 ts2 Ht Hts]; [discriminate|].
      destruct Hts; [|discriminate].
      intro E; inversion E; subst m1. eexists; split; [reflexivity|].
      apply Forall2_keeps_more. constructor.
    + intro E; inversion E; subst m1. eexists; split; [reflexivity|].
      apply Forall2_keeps_more, map_gt_kept, H.
    + destruct H as [|t1 t2 ts1 ts2 Ht Hts]; [discriminate|].
      destruct Hts; [|discriminate].
      intro E; inversion E; subst m1. eexists; split; [reflexivity|].
      apply Forall2_keeps_more.
      apply (Forall2_map_same kept_if_kept
               (fun x0 => Rgtb x0 t1) (fun x0 => Rgtb x0 t2) (x :: x' :: xs)).
      intro a. now apply Rgtb_kept.
Qed.

Lemma greater_scalar_monotone (xs : list R) (t1 t2 : R) :
  t1 <= t2 ->
  exists m1 m2,
    Np.greater xs (Scalar (Fin t1)) = Ok m1 /\
    Np.greater xs (Scalar (Fin t2)) = Ok m2 /\
    keeps_more m1 m2.
Proof.
  intro H. simpl. do 2 eexists. split; [reflexivity|]. split; [reflexivity|].
  apply Forall2_keeps_more.
  apply (Forall2_map_same kept_if_kept
           (fun x => Rgtb x t1) (fun x => Rgtb x t2)).
  intro a. now apply Rgtb_kept.
Qed.

Lemma scaled_roots_le (delta : R) (bs : list R) :
  Forall2 Rle (map (fun b => 3 * sqrt (b * delta)) bs)
              (map (fun b => 5 * sqrt (b * delta)) bs).
Proof.
  induction bs as [|b bs IH]; simpl; constructor; auto.
  pose proof (sqrt_pos (b * delta)). lra.
Qed.

(** C5.  For a fixed increment sequence, a larger multiplier in front of
    the standard deviation keeps every increment the smaller one keeps, and
    therefore at least as many; in particular STD5 keeps whatever STD3
    keeps, and BIVAR5 whatever BIVAR3 keeps. *)
Theorem multiplier_monotone
    (bipower_average_V : list R -> Z -> R -> result npval)
    (increments : list R) :
  (forall k1 k2, k1 <= k2 ->
     exists m1 m2,
       truncated_points increments (Scalar (Fin (k1 * Np.std increments))) = Ok m1 /\
       truncated_points increments (Scalar (Fin (k2 * Np.std increments))) = Ok m2 /\
       keeps_more m1 m2) /\
  (forall log_price window delta,
     exists t3 t5 m3 m5,
       truncationValue bipower_average_V "STD3" increments log_price window delta
         = Ok t3 /\
       truncationValue bipower_average_V "STD5" increments log_price window delta
         = Ok t5 /\
       truncated_points increments t3 = Ok m3 /\
       truncated_points increments t5 = Ok m5 /\
       keeps_more m3 m5) /\
  (forall log_price window delta t3 m3,
     truncationValue bipower_average_V "BIVAR3" increments log_price window delta
       = Ok t3 ->
     truncated_points increments t3 = Ok m3 ->
     exists t5 m5,
       truncationValue bipower_average_V "BIVAR5" increments log_price window delta
         = Ok t5 /\
       truncated_points increments t5 = Ok m5 /\
       keeps_more m3 m5).
Proof.
  assert (Hk : forall k1 k2, k1 <= k2 ->
            k1 * Np.std increments <= k2 * Np.std increments).
  { intros k1 k2 H. pose proof (std_nonneg increments). nra. }
  split; [|split].
  - intros k1 k2 H. unfold truncated_points.
    apply greater_scalar_monotone. auto.
  - intros lp w d.
    destruct (greater_scalar_monotone (Np.abs increments)
                (3 * Np.std increments) (5 * Np.std increments))
      as (m3 & m5 & H3 & H5 & Hm); [apply Hk; lra|].
    exists (Scalar (Fin (3 * Np.std increments))),
           (Scalar (Fin (5 * Np.std increments))), m3, m5.
    repeat split; auto; apply Hm.
  - intros lp w d t3 m3. unfold truncationValue; simpl.
    destruct (bipower_average_V lp w d) as [[b | bs] | e]; simpl;
      intros Ht Hm; inversion Ht; subst t3; clear Ht.
    + destruct (greater_scalar_monotone (Np.abs increments)
                  (3 * sqrt (b * d)) (5 * sqrt (b * d)))
        as (m3' & m5 & H3 & H5 & Hk5).
      { pose proof (sqrt_pos (b * d)). lra. }
      unfold truncated_points in *. rewrite H3 in Hm.
      inversion Hm; subst m3'.
      exists (Scalar (Fin (5 * sqrt (b * d)))), m5. auto.
    + unfold truncated_points in *.
      rewrite !map_map in Hm.
      destruct (greater_local_monotone (Np.abs increments)
                  (map (fun b => 3 * sqrt (b * d)) bs)
                  (map (fun b => 5 * sqrt (b * d)) bs) m3
                  (scaled_roots_le d bs) Hm) as (m5 & H5 & Hk5).
      exists (Local (map (fun b => 5 * sqrt (b * d)) bs)), m5.
      rewrite !map_map. auto.
Qed.

Lemma multiplier_monotone_witness :
  3 <= 5 /\
  exists m1 m2,
    truncated_points [1; -3; 2] (Scalar (Fin (3 * Np.std [1; -3; 2]))) = Ok m1 /\
    truncated_points [1; -3; 2] (Scalar (Fin (5 * Np.std [1; -3; 2]))) = Ok m2 /\
    keeps_more m1 m2.
Proof.
  split; [lra|].
  apply (proj1 (multiplier_monotone (fun _ _ _ => Ok (Num 0)) [1; -3; 2]) 3 5).
  lra.
Defined.

(** ** The positions that are highlighted *)

Lemma where_from_bounds (mask : list bool) (i idx : Z) :
  In idx (where_from i mask) -> (i <= idx < i + len mask)%Z.
Proof.
  revert i; induction mask as [|b mask IH]; intros i H; simpl in H.
  - contradiction.
  - unfold len in *. cbn [length]. rewrite Nat2Z.inj_succ.
    destruct b; [destruct H as [H | H]|]; try (apply IH in H); lia.
Qed.

Lemma item_in_range {A : Type} (a : list A) (i : Z) :
  (0 <= i < len a)%Z -> exists x, item a i = Ok x.
Proof.
  intros [H0 H1]. unfold item. cbv zeta.
  assert (E0 : (i <? 0)%Z = false) by (apply Z.ltb_ge; lia).
  rewrite E0, E0.
  destruct (nth_error a (Z.to_nat i)) as [x|] eqn:E.
  - exists x. reflexivity.
  - apply nth_error_None in E. unfold len in H1. lia.
Qed.

Lemma take_in_range {A : Type} (a : list A) (indices : list Z) :
  (forall i, In i indices -> (0 <= i < len a)%Z) ->
  exists xs, take a indices = Ok xs.
Proof.
  unfold take. induction indices as [|i rest IH]; intro H; simpl.
  - eauto.
  - destruct (item_in_range a i) as [x Hx]; [apply H; now left|].
    destruct IH as [xs Hxs]; [intros j Hj; apply H; now right|].
    rewrite Hx, Hxs. simpl. eauto.
Qed.

(** C9.  For a non-empty price array and a single threshold, finite or
    infinite, the driver's increments and flags are formed without an
    exception, every entry of [truncated_indices] is greater than 0 and at
    most [len(price_array) - 1], and so the two lookups of the scatter plot,
    into the timestamps and into the prices, succeed. *)
Theorem truncated_indices_in_bounds (price_array : list R) (t : ext) :
  price_array <> [] ->
  exists incs mask,
    increments (log_price price_array) = Ok incs /\
    truncated_points incs (Scalar t) = Ok mask /\
    (forall idx, In idx (truncated_indices mask) ->
                 (0 < idx <= len price_array - 1)%Z) /\
    (forall (T : Type) (DT : list T),
        length DT = length price_array ->
        exists xs ys,
          scatter_points DT price_array (truncated_indices mask) = Ok (xs, ys)).
Proof.
  intro Hne. rewrite increments_diffs.
  exists (Core.diffs (log_price price_array)).
  eexists; split; [reflexivity|]. split; [reflexivity|].
  assert (Hb : forall idx,
             In idx (truncated_indices
                       (map (fun x => gtb_ext x t)
                            (Np.abs (Core.diffs (log_price price_array))))) ->
             (0 < idx <= len price_array - 1)%Z).
  { intros idx H. unfold truncated_indices, where_ in H.
    apply in_map_iff in H. destruct H as (j & Hj & Hin).
    apply where_from_bounds in Hin. unfold len in *.
    unfold Np.abs in Hin.
    rewrite !length_map, diffs_length, log_price_length in Hin.
    destruct price_array; [congruence|]. simpl length in *. lia. }
  split; [exact Hb|].
  intros T DT Hlen. unfold scatter_points.
  destruct (take_in_range DT
              (truncated_indices
                 (map (fun x => gtb_ext x t)
                      (Np.abs (Core.diffs (log_price price_array))))))
    as [xs Hxs].
  { intros i Hi. apply Hb in Hi. unfold len in *. lia. }
  destruct (take_in_range price_array
              (truncated_indices
                 (map (fun x => gtb_ext x t)
                      (Np.abs (Core.diffs (log_price price_array))))))
    as [ys Hys].
  { intros i Hi. apply Hb in Hi. lia. }
  exists xs, ys. simpl in *. rewrite Hxs, Hys. reflexivity.
Qed.

Lemma truncated_indices_in_bounds_witness :
  [100; 101; 99; 150; 101] <> [] /\
  exists incs mask,
    increments (log_price [100; 101; 99; 150; 101]) = Ok incs /\
    truncated_points incs (Scalar (Fin (1/10))) = Ok mask /\
    (forall idx, In idx (truncated_indices mask) ->
                 (0 < idx <= len [100; 101; 99; 150; 101] - 1)%Z) /\
    (forall (T : Type) (DT : list T),
        length DT = length [100; 101; 99; 150; 101] ->
        exists xs ys,
          scatter_points DT [100; 101; 99; 150; 101] (truncated_indices mask)
          = Ok (xs, ys)).
Proof.
  split; [discriminate|].
  apply (truncated_indices_in_bounds [100; 101; 99; 150; 101] (Fin (1/10))).
  discriminate.
Defined.

(** ** The rolling loop *)

Lemma range_blocks (n w : Z) :
  (0 <= n)%Z -> (0 < w)%Z ->
  range 0 (n - w + 1) w
  = Ok (map (fun i => (0 + Z.of_nat i * w)%Z) (seq 0 (Z.to_nat (n / w)))).
Proof.
  intros Hn Hw. unfold range, range_length.
  replace (w =? 0)%Z with false by (symmetry; apply Z.eqb_neq; lia).
  replace (0 <? w)%Z with true by (symmetry; apply Z.ltb_lt; lia).
  destruct (0 <? n - w + 1)%Z eqn:E.
  - apply Z.ltb_lt in E.
    replace ((n - w + 1 - 0 - 1) / w + 1)%Z with (n / w)%Z; [reflexivity|].
    replace n with ((n - w) + 1 * w)%Z at 1 by lia.
    rewrite Z.div_add by lia. f_equal. f_equal. lia.
  - apply Z.ltb_ge in E.
    rewrite Z.div_small by lia. reflexivity.
Qed.

Lemma slice_inside {A : Type} (l : list A) (lo hi : Z) :
  (0 <= lo <= hi)%Z -> (hi <= len l)%Z ->
  slice l (Some lo) (Some hi)
  = firstn (Z.to_nat (hi - lo)) (skipn (Z.to_nat lo) l).
Proof.
  intros H1 H2. unfold slice, clamp.
  replace (lo <? 0)%Z with false by (symmetry; apply Z.ltb_ge; lia).
  replace (hi <? 0)%Z with false by (symmetry; apply Z.ltb_ge; lia).
  rewrite !Z.min_l by lia. reflexivity.
Qed.

Lemma mapM_map {A B C : Type} (f : B -> result C) (g : A -> B) (xs : list A) :
  mapM f (map g xs) = mapM (fun x => f (g x)) xs.
Proof.
  induction xs as [|x xs IH]; simpl; [reflexivity|]. now rewrite IH.
Qed.

Lemma mapM_total {A B : Type} (f : A -> result B) (xs : list A) :
  Forall (fun x => exists y, f x = Ok y) xs ->
  exists ys, mapM f xs = Ok ys /\ length ys = length xs.
Proof.
  induction 1 as [|x xs [y Hy] _ (ys & Hys & Hl)]; simpl.
  - eauto.
  - rewrite Hy, Hys. simpl. exists (y :: ys). simpl. auto.
Qed.

Lemma firstn_plus {A : Type} (a b : nat) (l : list A) :
  firstn (a + b) l = firstn a l ++ firstn b (skipn a l).
Proof.
  revert l; induction a as [|a IH]; intros [|x l]; simpl;
    try reflexivity.
  - now rewrite firstn_nil.
  - now rewrite IH.
Qed.

Lemma concat_blocks {A : Type} (l : list A) (w k : nat) :
  concat (map (fun i => firstn w (skipn (i * w) l)) (seq 0 k))
  = firstn (k * w) l.
Proof.
  induction k as [|k IH].
  - reflexivity.
  - rewrite seq_S, map_app, concat_app, IH. simpl.
    rewrite app_nil_r.
    replace (w + k * w)%nat with (k * w + w)%nat by lia.
    now rewrite firstn_plus.
Qed.

Lemma block_length {A : Type} (l : list A) (w i : nat) :
  ((i + 1) * w <= length l)%nat ->
  length (firstn w (skipn (i * w) l)) = w.
Proof.
  intro H. rewrite length_firstn, length_skipn. lia.
Qed.

(** How many whole blocks there are, and what is left over. *)
Lemma whole_blocks (n w : Z) :
  (0 <= n)%Z -> (0 < w)%Z ->
  (Z.to_nat (n / w) * Z.to_nat w <= Z.to_nat n)%nat /\
  (Z.to_nat n - Z.to_nat (n / w) * Z.to_nat w < Z.to_nat w)%nat.
Proof.
  intros Hn Hw.
  pose proof (Z.div_pos n w Hn Hw) as Hq.
  pose proof (Z.mul_div_le n w Hw) as Hle.
  pose proof (Z.mul_succ_div_gt n w Hw) as Hgt.
  split; nia.
Qed.

Section Rolling.

Variables Volatility Pattern : Type.
Variable volatility_pattern : list Volatility -> result Pattern.

Lemma passed_slices_blocks (all_vols : list Volatility) (w : Z) :
  (0 < w)%Z ->
  passed_slices all_vols w
  = Ok (map (block all_vols w) (seq 0 (Z.to_nat (len all_vols / w)))).
Proof.
  intro Hw. unfold passed_slices.
  rewrite range_blocks by (unfold len; lia). simpl.
  f_equal. rewrite map_map. apply map_ext_in. intros i Hi.
  apply in_seq in Hi.
  destruct (whole_blocks (len all_vols) w) as [Hle _];
    [unfold len; lia | assumption |].
  unfold len in *. rewrite Nat2Z.id in Hle.
  unfold slice_vols, block. rewrite slice_inside.
  - f_equal; [f_equal; lia | f_equal; nia].
  - nia.
  - unfold len. nia.
Qed.

Lemma small_patterns_slices (all_vols : list Volatility) (w : Z) :
  small_patterns volatility_pattern all_vols w
  = (slices <- passed_slices all_vols w ;; mapM volatility_pattern slices).
Proof.
  unfold small_patterns, passed_slices.
  destruct (range 0 (len all_vols - w + 1) w); simpl; [|reflexivity].
  now rewrite mapM_map.
Qed.

Lemma blocks_have_window_length (all_vols : list Volatility) (w : Z) :
  (0 < w)%Z ->
  Forall (fun b => length b = Z.to_nat w)
         (map (block all_vols w) (seq 0 (Z.to_nat (len all_vols / w)))).
Proof.
  intro Hw.
  destruct (whole_blocks (len all_vols) w) as [Hle _];
    [unfold len; lia | assumption |].
  unfold len in Hle. rewrite Nat2Z.id in Hle.
  apply Forall_forall. intros b Hb.
  apply in_map_iff in Hb. destruct Hb as (i & <- & Hi).
  apply in_seq in Hi. apply block_length. unfold len in Hi. nia.
Qed.

(** C6.  For a positive [window_pattern] the rolling loop aggregates, in
    order and one by one, the blocks of [window_pattern] consecutive days
    that start at day 0: there are [len(all_vols) // window_pattern] of
    them, each has exactly [window_pattern] days, together they are the
    leading days of the list without overlap or gap, fewer than
    [window_pattern] trailing days are left out, and when [window_pattern]
    exceeds the number of days the result is the empty list. *)
Theorem rolling_patterns_blocks (all_vols : list Volatility) (w : Z) :
  (0 < w)%Z ->
  let k := Z.to_nat (len all_vols / w) in
  let blocks := map (block all_vols w) (seq 0 k) in
  passed_slices all_vols w = Ok blocks /\
  small_patterns volatility_pattern all_vols w = mapM volatility_pattern blocks /\
  Forall (fun b => length b = Z.to_nat w) blocks /\
  concat blocks = firstn (k * Z.to_nat w) all_vols /\
  (length all_vols - k * Z.to_nat w < Z.to_nat w)%nat /\
  ((len all_vols < w)%Z ->
   small_patterns volatility_pattern all_vols w = Ok []).
Proof.
  intros Hw k blocks.
  pose proof (passed_slices_blocks all_vols w Hw) as Hs.
  fold k in Hs. fold blocks in Hs.
  destruct (whole_blocks (len all_vols) w) as [Hle Hlt];
    [unfold len; lia | assumption |].
  unfold len in Hle, Hlt. rewrite Nat2Z.id in Hle, Hlt.
  change (Z.to_nat (Z.of_nat (length all_vols) / w)) with k in Hle, Hlt.
  split; [exact Hs|].
  split; [rewrite small_patterns_slices, Hs; reflexivity|].
  split; [|split; [|split]].
  - apply blocks_have_window_length, Hw.
  - apply (concat_blocks all_vols (Z.to_nat w) k).
  - exact Hlt.
  - intro Hsmall. rewrite small_patterns_slices, Hs.
    unfold blocks, k. rewrite Z.div_small by (unfold len in *; lia).
    reflexivity.
Qed.

(** C10.  For a positive [window_pattern] every slice the rolling loop
    hands to [volatility_pattern] has exactly [window_pattern] elements and
    is therefore not empty; an aggregation that fails on the empty list only
    never fails inside the loop, which then returns one pattern per
    slice. *)
Theorem rolling_slices_never_empty (all_vols : list Volatility) (w : Z) :
  (0 < w)%Z ->
  exists slices,
    passed_slices all_vols w = Ok slices /\
    Forall (fun s => len s = w /\ s <> []) slices /\
    ((forall s, s <> [] -> exists p, volatility_pattern s = Ok p) ->
     exists ps,
       small_patterns volatility_pattern all_vols w = Ok ps /\
       length ps = length slices).
Proof.
  intro Hw.
  pose proof (passed_slices_blocks all_vols w Hw) as Hs.
  pose proof (blocks_have_window_length all_vols w Hw) as Hlen.
  assert (Hsp := small_patterns_slices all_vols w). rewrite Hs in Hsp.
  simpl in Hsp.
  eexists; split; [exact Hs|].
  assert (Hall : Forall (fun s : list Volatility => len s = w /\ s <> [])
                   (map (block all_vols w)
                        (seq 0 (Z.to_nat (len all_vols / w))))).
  { eapply Forall_impl; [|exact Hlen]. cbv beta.
    intros s Hl. unfold len. split; [lia|].
    intro E; subst s; simpl in Hl; lia. }
  split; [exact Hall|].
  intro Htotal. rewrite Hsp. apply mapM_total.
  eapply Forall_impl; [|exact Hall]. cbv beta.
  intros s [_ Hne]. auto.
Qed.

End Rolling.

Lemma rolling_patterns_blocks_witness :
  (0 < 2)%Z /\
  (let k := Z.to_nat (len example_days / 2) in
   let blocks := map (block example_days 2) (seq 0 k) in
   passed_slices example_days 2 = Ok blocks /\
   small_patterns Core.volatility_pattern example_days 2
     = mapM Core.volatility_pattern blocks /\
   Forall (fun b => length b = Z.to_nat 2) blocks /\
   concat blocks = firstn (k * Z.to_nat 2) example_days /\
   (length example_days - k * Z.to_nat 2 < Z.to_nat 2)%nat /\
   ((len example_days < 2)%Z ->
    small_patterns Core.volatility_pattern example_days 2 = Ok [])).
Proof.
  split; [lia|].
  apply (rolling_patterns_blocks Core.Volatility Core.Pattern
           Core.volatility_pattern example_days 2).
  lia.
Defined.

(** The aggregation of the specification fails on the empty list only. *)
Lemma volatility_pattern_nonempty (vols : list Core.Volatility) :
  vols <> [] -> exists p, Core.volatility_pattern vols = Ok p.
Proof.
  destruct vols as [|v vs]; [congruence|]. intros _. simpl. eauto.
Qed.

Lemma rolling_slices_never_empty_witness :
  (0 < 2)%Z /\
  exists slices,
    passed_slices example_days 2 = Ok slices /\
    Forall (fun s => len s = 2%Z /\ s <> []) slices /\
    ((forall s, s <> [] -> exists p, Core.volatility_pattern s = Ok p) ->
     exists ps,
       small_patterns Core.volatility_pattern example_days 2 = Ok ps /\
       length ps = length slices).
Proof.
  split; [lia|].
  apply (rolling_slices_never_empty Core.Volatility Core.Pattern
           Core.volatility_pattern example_days 2).
  lia.
Defined.

(** ** Estimates and their timestamps *)

Lemma slice_prefix {A : Type} (l : list A) (hi : Z) :
  (0 <= hi <= len l)%Z -> slice l None (Some hi) = firstn (Z.to_nat hi) l.
Proof.
  intro H. unfold slice, clamp.
  replace (hi <? 0)%Z with false by (symmetry; apply Z.ltb_ge; lia).
  rewrite Z.min_l by lia. rewrite Z.sub_0_r. reflexivity.
Qed.

Lemma combine_nth_error {A B : Type} (xs : list A) (ys : list B) (i : nat)
    (x : A) (y : B) :
  nth_error xs i = Some x -> nth_error ys i = Some y ->
  nth_error (combine xs ys) i = Some (x, y).
Proof.
  revert ys i; induction xs as [|a xs IH]; intros [|b ys] [|i] Hx Hy;
    simpl in *; try discriminate.
  - congruence.
  - eauto.
Qed.

Lemma firstn_nth_error {A : Type} (l : list A) (n i : nat) :
  (i < n)%nat -> nth_error (firstn n l) i = nth_error l i.
Proof.
  revert n i; induction l as [|a l IH]; intros [|n] [|i] H; simpl;
    try reflexivity; try lia.
  apply IH. lia.
Qed.

Section Alignment.

Variable bipower_average_V : list R -> Z -> R -> result npval.

(** C8, as the driver has it.  For a day of N prices and N timestamps with
    N > window > 0, and a configuration the threshold policy accepts, the
    estimator returns exactly N - window estimates, the driver keeps exactly
    N - window timestamps, and the curve pairs the estimate of window
    position i with the timestamp at position i: the first N - window
    timestamps, so that of the window's first observation. *)
Theorem estimates_paired_with_leading_timestamps
    (truncation_method : string) (window : Z) (delta : R)
    (price_array : list R) (DT : list Z) (thr : threshold) :
  (0 < window)%Z ->
  (window < len price_array)%Z ->
  length DT = length price_array ->
  Core.policy bipower_average_V truncation_method
    (Core.diffs (map ln price_array)) (map ln price_array) window delta
    = Ok thr ->
  exists values,
    Core.compute bipower_average_V truncation_method window delta price_array
      = Ok values /\
    len values = (len price_array - window)%Z /\
    len (vol_DT DT price_array window) = (len price_array - window)%Z /\
    vol_DT DT price_array window
      = firstn (Z.to_nat (len price_array - window)) DT /\
    exists curve,
      plotted DT price_array window values = Ok curve /\
      forall i, (i < length values)%nat ->
        exists t v,
          nth_error curve i = Some (t, v) /\
          nth_error DT (Core.first_observation i) = Some t /\
          nth_error values i = Some v.
Proof.
  intros Hw Hn Hlen Hp. unfold Core.compute.
  replace (window <=? 0)%Z with false by (symmetry; apply Z.leb_gt; lia).
  replace (len price_array <=? window)%Z with false
    by (symmetry; apply Z.leb_gt; lia).
  rewrite Hp. simpl.
  eexists; split; [reflexivity|].
  assert (Hv : vol_DT DT price_array window
               = firstn (Z.to_nat (len price_array - window)) DT).
  { unfold vol_DT. apply slice_prefix. unfold len in *. lia. }
  split; [unfold len in *; rewrite length_map, length_seq; lia|].
  split; [rewrite Hv; unfold len in *; rewrite length_firstn; lia|].
  split; [exact Hv|].
  unfold plotted. rewrite Hv.
  replace (Nat.eqb _ _) with true.
  2:{ symmetry. apply Nat.eqb_eq. unfold len in *.
      rewrite length_firstn, length_map, length_seq. lia. }
  eexists; split; [reflexivity|].
  intros i Hi. rewrite length_map, length_seq in Hi.
  destruct (nth_error DT i) as [t|] eqn:Et.
  2:{ apply nth_error_None in Et. unfold len in *. lia. }
  exists t.
  eexists. unfold Core.first_observation.
  split; [|split; [exact Et|]].
  - apply combine_nth_error.
    + rewrite firstn_nth_error by lia. exact Et.
    + apply map_nth_error. rewrite nth_error_nth' with (d := 0%nat)
        by (rewrite length_seq; lia).
      rewrite seq_nth by lia. reflexivity.
  - apply map_nth_error. rewrite nth_error_nth' with (d := 0%nat)
      by (rewrite length_seq; lia).
    rewrite seq_nth by lia. reflexivity.
Qed.

End Alignment.

Lemma estimates_paired_with_leading_timestamps_witness :
  (0 < 2)%Z /\
  (2 < len [100; 101; 99; 150; 101])%Z /\
  length [0; 1; 2; 3; 4]%Z = length [100; 101; 99; 150; 101] /\
  Core.policy (fun _ _ _ => Ok (Num 0)) "STD3"
    (Core.diffs (map ln [100; 101; 99; 150; 101]))
    (map ln [100; 101; 99; 150; 101]) 2 1
    = Ok (Scalar (Fin (3 * Core.sample_std (Core.diffs (map ln [100; 101; 99; 150; 101]))))) /\
  exists values,
    Core.compute (fun _ _ _ => Ok (Num 0)) "STD3" 2 1 [100; 101; 99; 150; 101]
      = Ok values /\
    len values = (len [100; 101; 99; 150; 101] - 2)%Z /\
    len (vol_DT [0; 1; 2; 3; 4]%Z [100; 101; 99; 150; 101] 2)
      = (len [100; 101; 99; 150; 101] - 2)%Z /\
    vol_DT [0; 1; 2; 3; 4]%Z [100; 101; 99; 150; 101] 2
      = firstn (Z.to_nat (len [100; 101; 99; 150; 101] - 2)) [0; 1; 2; 3; 4]%Z /\
    exists curve,
      plotted [0; 1; 2; 3; 4]%Z [100; 101; 99; 150; 101] 2 values = Ok curve /\
      forall i, (i < length values)%nat ->
        exists t v,
          nth_error curve i = Some (t, v) /\
          nth_error [0; 1; 2; 3; 4]%Z (Core.first_observation i) = Some t /\
          nth_error values i = Some v.
Proof.
  split; [lia|]. split; [reflexivity|]. split; [reflexivity|].
  split; [reflexivity|].
  apply (estimates_paired_with_leading_timestamps
           (fun _ _ _ => Ok (Num 0)) "STD3" 2 1 [100; 101; 99; 150; 101]
           [0; 1; 2; 3; 4]%Z
           (Scalar (Fin (3 * Core.sample_std (Core.diffs (map ln [100; 101; 99; 150; 101])))))).
  - lia.
  - reflexivity.
  - reflexivity.
  - reflexivity.
Defined.

(** C8 as the specification words it does not hold: the timestamp the
    driver pairs with window position i is not that of the window's last
    observation. *)
Lemma estimates_not_paired_with_last_observation :
  ~ (forall (DT : list Z) (price_array : list R) (window : Z),
        increasing DT ->
        length DT = length price_array ->
        (0 < window)%Z ->
        (window < len price_array)%Z ->
        forall i t,
          nth_error (vol_DT DT price_array window) i = Some t ->
          nth_error DT (Core.last_observation window i) = Some t).
Proof.
  intro H.
  assert (Hinc : increasing [0; 1; 2; 3]%Z) by (simpl; lia).
  specialize (H [0; 1; 2; 3]%Z [100; 101; 150; 101] 2%Z Hinc eq_refl
                eq_refl eq_refl 0%nat 0%Z eq_refl).
  discriminate H.
Qed.

(** ** The driver's flags and the estimator's truncation *)

Lemma std_five_two : Np.std [5; 2] = 3 / 2.
Proof.
  unfold Np.std, Np.var, Np.mean. cbn [map Np.sum length INR].
  replace ((5 - (5 + (2 + 0)) / (1 + 1)) * (5 - (5 + (2 + 0)) / (1 + 1))
           + ((2 - (5 + (2 + 0)) / (1 + 1)) * (2 - (5 + (2 + 0)) / (1 + 1)) + 0))
    with (9 / 2) by field.
  replace (9 / 2 / (1 + 1)) with ((3 / 2) * (3 / 2)) by field.
  apply sqrt_square. lra.
Qed.

Lemma sample_std_five_two : 2 <= Core.sample_std [5; 2].
Proof.
  unfold Core.sample_std, Np.mean.
  cbn [map Np.sum length INR Nat.sub].
  replace (((5 - (5 + (2 + 0)) / (1 + 1)) * (5 - (5 + (2 + 0)) / (1 + 1))
            + ((2 - (5 + (2 + 0)) / (1 + 1)) * (2 - (5 + (2 + 0)) / (1 + 1)) + 0))
           / 1)
    with (9 / 2) by field.
  rewrite <- (sqrt_square 2) at 1 by lra.
  apply sqrt_le_1_alt. lra.
Qed.



(** C3 as the specification words it does not hold: the threshold of STD3
    is not three times the sample standard deviation.  On the increments 5
    and 2 the driver's threshold is 3 * 1.5 = 4.5, while the sample standard
    deviation is at least 2. *)
Lemma fixed_std_is_not_sample_std :
  ~ (forall (bav : list R -> Z -> R -> result npval)
            (increments log_price : list R) (window : Z) (delta : R),
        truncationValue bav "STD3" increments log_price window delta
        = Ok (Scalar (Fin (3 * Core.sample_std increments)))).
Proof.
  intro H.
  specialize (H (fun _ _ _ => Ok (Num 0)) [5; 2] [0; 5; 7] 1%Z 1).
  change (truncationValue (fun _ _ _ => Ok (Num 0)) "STD3" [5; 2] [0; 5; 7] 1 1)
    with (Ok (Scalar (Fin (3 * Np.std [5; 2])))) in H.
  injection H as H. rewrite std_five_two in H.
  pose proof sample_std_five_two. lra.
Qed.

Lemma fixed_std_threshold_witness :
  nth_error [5; 2] 0 = Some 5 /\
  Rabs 5 > 3 * Np.std [5; 2] /\
  exists mask,
    truncated_points [5; 2] (Scalar (Fin (3 * Np.std [5; 2]))) = Ok mask /\
    nth_error mask 0 = Some true.
Proof.
  assert (Hgt : Rabs 5 > 3 * Np.std [5; 2]).
  { rewrite std_five_two, Rabs_right by lra. lra. }
  split; [reflexivity|]. split; [exact Hgt|].
  destruct (proj2 (proj2 (proj2 (proj2 (proj2
              (fixed_std_threshold (fun _ _ _ => Ok (Num 0)) [5; 2])))))
              3) as [mask [Hm Hflag]].
  exists mask. split; [exact Hm|].
  apply (proj2 (Hflag 0%nat 5 eq_refl)). exact Hgt.
Defined.

Section Agreement.

Variable bipower_average_V : list R -> Z -> R -> result npval.




End Agreement.





(** ** Concrete runs *)

Example flags_of_three_increments :
  truncated_points [1; -3; 2] (Scalar (Fin 2)) = Ok [false; true; false].
Proof. unfold truncated_points; simpl. decide_reals. Qed.

Example indices_of_three_increments :
  truncated_indices [false; true; false] = [2%Z].
Proof. reflexivity. Qed.

Example nothing_exceeds_infinity :
  truncated_points [1; -3; 2] (Scalar PInf) = Ok [false; false; false].
Proof. reflexivity. Qed.

Example misaligned_local_thresholds :
  truncated_points [1; -3; 2] (Local [2; 2]) = Raise ValueError.
Proof. reflexivity. Qed.

Example range_of_five_days : range 0 (5 - 2 + 1) 2 = Ok [0; 2]%Z.
Proof. reflexivity. Qed.

Example range_of_one_day : range 0 (1 - 2 + 1) 2 = Ok [].
Proof. reflexivity. Qed.

Example range_zero_step : range 0 6 0 = Raise ValueError.
Proof. reflexivity. Qed.

Example slices_of_five_days :
  passed_slices example_days 2
  = Ok [[example_day 3 1; example_day 3 2]; [example_day 2 3; example_day 3 4]].
Proof. reflexivity. Qed.

Example leading_timestamps :
  vol_DT [0; 1; 2; 3]%Z [100; 101; 150; 101] 2 = [0; 1]%Z.
Proof. reflexivity. Qed.

Example std_of_two : Np.std [0; 2] = 1.
Proof.
  unfold Np.std, Np.var, Np.mean; simpl.
  replace ((0 - (0 + (2 + 0)) / (1 + 1)) * (0 - (0 + (2 + 0)) / (1 + 1))
           + ((2 - (0 + (2 + 0)) / (1 + 1)) * (2 - (0 + (2 + 0)) / (1 + 1)) + 0))
    with 2 by lra.
  replace (2 / (1 + 1)) with 1 by lra. apply sqrt_1.
Qed.

(** * Further properties of the driver *)

(** ** Increments *)

Lemma diffs_nth_error (lp : list R) (i : nat) (a b : R) :
  nth_error lp i = Some a -> nth_error lp (S i) = Some b ->
  nth_error (Core.diffs lp) i = Some (b - a).
Proof.
  revert i; induction lp as [|x [|y rest] IH]; intros i Ha Hb.
  - destruct i; discriminate.
  - destruct i as [|[|i]]; discriminate.
  - destruct i as [|i].
    + simpl in *. congruence.
    + change (Core.diffs (x :: y :: rest)) with ((y - x) :: Core.diffs (y :: rest)).
      simpl nth_error. apply IH; assumption.
Qed.

(** X1.  The increments of the driver never raise: for log-prices of any
    length there are one fewer increments than log-prices (none for an
    empty or one-element array), and the increment at position i is the
    log-price at i+1 minus the log-price at i. *)
Theorem increments_consecutive_differences (lp : list R) :
  exists incs,
    increments lp = Ok incs /\
    length incs = pred (length lp) /\
    forall i a b,
      nth_error lp i = Some a -> nth_error lp (S i) = Some b ->
      nth_error incs i = Some (b - a).
Proof.
  exists (Core.diffs lp). split; [apply increments_diffs|].
  split; [apply diffs_length|]. apply diffs_nth_error.
Qed.

Lemma increments_consecutive_differences_witness :
  nth_error [1; 4; 2] 1 = Some 4 /\ nth_error [1; 4; 2] 2 = Some 2 /\
  exists incs,
    increments [1; 4; 2] = Ok incs /\ nth_error incs 1 = Some (2 - 4).
Proof.
  split; [reflexivity|]. split; [reflexivity|].
  destruct (increments_consecutive_differences [1; 4; 2]) as (incs & Hi & _ & Hn).
  exists incs. split; [exact Hi|].
  apply (Hn 1%nat 4 2); reflexivity.
Defined.

(** ** The comparison with an array of local thresholds *)

(** X3.  With an array of local thresholds the comparison follows numpy's
    broadcasting: it succeeds when the array has as many values as there
    are increments or when one of the two has length one (the result then
    has the length of the other), and raises [ValueError] in every other
    case. *)
Theorem truncated_points_local_shapes (incs ts : list R) :
  (length ts = length incs \/ length incs = 1%nat \/ length ts = 1%nat ->
   exists mask,
     truncated_points incs (Local ts) = Ok mask /\
     length mask = if Nat.eqb (length incs) 1 then length ts else length incs) /\
  (length ts <> length incs -> length incs <> 1%nat -> length ts <> 1%nat ->
   truncated_points incs (Local ts) = Raise ValueError).
Proof.
  unfold truncated_points, Np.greater, broadcast2, Np.abs.
  rewrite length_map.
  destruct (Nat.eqb (length incs) (length ts)) eqn:E.
  - apply Nat.eqb_eq in E. split.
    + intros _. eexists; split; [reflexivity|].
      rewrite zip_with_length by (rewrite length_map; exact E).
      rewrite length_map.
      destruct (Nat.eqb (length incs) 1) eqn:E1; [|reflexivity].
      apply Nat.eqb_eq in E1. lia.
    + intros H. congruence.
  - apply Nat.eqb_neq in E.
    destruct incs as [|x [|y incs]]; simpl map; simpl length in *.
    + destruct ts as [|t [|t' ts]]; simpl length in *.
      * congruence.
      * split; [|intros; congruence].
        intros _. eexists; split; reflexivity.
      * split; [intros [H | [H | H]]; discriminate|]. reflexivity.
    + split; [|intros; congruence].
      intros _. eexists; split; [reflexivity|]. now rewrite length_map.
    + destruct ts as [|t [|t' ts]]; simpl length in *.
      * split; [intros [H | [H | H]]; discriminate|]. reflexivity.
      * split; [|intros; congruence].
        intros _. eexists; split; [reflexivity|].
        simpl. now rewrite !length_map.
      * split; [|reflexivity].
        intros [H | [H | H]]; try discriminate. congruence.
Qed.

Lemma truncated_points_local_shapes_witness :
  (length [2; 2] <> length [1; -3; 2] /\
   length [1; -3; 2] <> 1%nat /\ length [2; 2] <> 1%nat) /\
  truncated_points [1; -3; 2] (Local [2; 2]) = Raise ValueError.
Proof.
  split; [repeat split; discriminate|].
  apply (proj2 (truncated_points_local_shapes [1; -3; 2] [2; 2]));
    discriminate.
Defined.

(** ** The highlighted positions *)

Lemma where_from_iff (mask : list bool) (i idx : Z) :
  In idx (where_from i mask) <->
  (i <= idx)%Z /\ nth_error mask (Z.to_nat (idx - i)) = Some true.
Proof.
  revert i; induction mask as [|b mask IH]; intro i; simpl.
  - split; [contradiction|]. intros [_ H].
    destruct (Z.to_nat (idx - i)); discriminate.
  - assert (Hstep : forall P : Prop,
              (In idx (where_from (i + 1) mask) <-> P) ->
              (In idx (where_from (i + 1) mask) <-> P)) by auto.
    destruct (Z.eq_dec idx i) as [-> | Hne].
    + rewrite Z.sub_diag. simpl.
      destruct b; simpl.
      * split; [intros _; split; [lia | reflexivity] | auto].
      * rewrite IH. split; [intros [H _]; lia | intros [_ H]; discriminate].
    + assert (Hin : In idx (where_from (i + 1) mask) <->
                    (i <= idx)%Z /\
                    nth_error (b :: mask) (Z.to_nat (idx - i)) = Some true).
      { rewrite IH. split.
        - intros [H1 H2]. split; [lia|].
          replace (Z.to_nat (idx - i)) with (S (Z.to_nat (idx - (i + 1))))
            by lia. exact H2.
        - intros [H1 H2]. split; [lia|].
          replace (Z.to_nat (idx - i)) with (S (Z.to_nat (idx - (i + 1))))
            in H2 by lia. exact H2. }
      destruct b; simpl; [|exact Hin].
      rewrite Hin. split; [intros [H | H]; [congruence | exact H] | auto].
Qed.

Lemma increasing_cons (a : Z) (l : list Z) :
  (forall x, In x l -> (a < x)%Z) -> increasing l -> increasing (a :: l).
Proof.
  destruct l as [|b l]; intros Hlt Hinc; simpl; auto.
  split; [apply Hlt; now left | exact Hinc].
Qed.

Lemma where_from_increasing (mask : list bool) (i : Z) :
  increasing (where_from i mask).
Proof.
  revert i; induction mask as [|b mask IH]; intro i; simpl; [exact I|].
  destruct b; [|apply IH].
  apply increasing_cons; [|apply IH].
  intros x Hx. apply where_from_bounds in Hx. lia.
Qed.

Lemma where_from_length (mask : list bool) (i : Z) :
  length (where_from i mask) = count_true mask.
Proof.
  unfold count_true.
  revert i; induction mask as [|b mask IH]; intro i; simpl; [reflexivity|].
  destruct b; simpl; now rewrite IH.
Qed.

Lemma increasing_shift (l : list Z) :
  increasing l -> increasing (map (fun i => (i + 1)%Z) l).
Proof.
  induction l as [|a [|b l] IH]; simpl; auto.
  intros [H1 H2]. split; [lia|]. apply IH. exact H2.
Qed.

(** X4.  [truncated_indices] lists exactly the positions that follow a
    flagged increment: an index is listed if and only if it is at least 1
    and the flag just before it is [True]; the indices are strictly
    increasing, and there are as many as there are [True] flags. *)
Theorem truncated_indices_characterised (mask : list bool) :
  (forall idx,
      In idx (truncated_indices mask) <->
      (1 <= idx)%Z /\ nth_error mask (Z.to_nat (idx - 1)) = Some true) /\
  increasing (truncated_indices mask) /\
  length (truncated_indices mask) = count_true mask.
Proof.
  unfold truncated_indices, where_. split; [|split].
  - intro idx. rewrite in_map_iff. split.
    + intros (j & <- & Hj). apply where_from_iff in Hj.
      destruct Hj as [H0 Hn]. split; [lia|].
      replace (j + 1 - 1)%Z with (j - 0)%Z by lia. exact Hn.
    + intros [H1 Hn]. exists (idx - 1)%Z. split; [lia|].
      apply where_from_iff. split; [lia|].
      now rewrite Z.sub_0_r.
  - apply increasing_shift, where_from_increasing.
  - rewrite length_map. apply where_from_length.
Qed.

Lemma truncated_indices_characterised_witness :
  ((1 <= 2)%Z /\ nth_error [false; true; false] (Z.to_nat (2 - 1)) = Some true) /\
  In 2%Z (truncated_indices [false; true; false]).
Proof.
  assert (H : (1 <= 2)%Z /\
              nth_error [false; true; false] (Z.to_nat (2 - 1)) = Some true)
    by (split; [lia | reflexivity]).
  split; [exact H|].
  apply (proj1 (truncated_indices_characterised [false; true; false]) 2%Z).
  exact H.
Defined.

(** ** The lookups of the scatter plot *)

Lemma in_range_dec (n i : Z) : {in_range n i} + {~ in_range n i}.
Proof.
  unfold in_range.
  destruct (Z_le_dec (- n) i); destruct (Z_lt_dec i n);
    try (left; lia); right; lia.
Qed.

Lemma item_inside {A : Type} (a : list A) (i : Z) :
  in_range (len a) i ->
  exists x, item a i = Ok x /\
            nth_error a (Z.to_nat (if (i <? 0)%Z then i + len a else i)) = Some x.
Proof.
  unfold in_range, item. intros [H0 H1]. cbv zeta.
  set (j := if (i <? 0)%Z then (i + len a)%Z else i).
  assert (Hj : (0 <= j < len a)%Z).
  { unfold j. destruct (i <? 0)%Z eqn:E;
      [apply Z.ltb_lt in E | apply Z.ltb_ge in E]; lia. }
  replace (j <? 0)%Z with false by (symmetry; apply Z.ltb_ge; lia).
  destruct (nth_error a (Z.to_nat j)) as [x|] eqn:E.
  - exists x. split; reflexivity.
  - apply nth_error_None in E. unfold len in Hj. lia.
Qed.

Lemma item_outside {A : Type} (a : list A) (i : Z) :
  ~ in_range (len a) i -> item a i = Raise IndexError.
Proof.
  unfold in_range, item. intro H. cbv zeta.
  set (j := if (i <? 0)%Z then (i + len a)%Z else i).
  destruct (j <? 0)%Z eqn:Ej; [reflexivity|].
  apply Z.ltb_ge in Ej.
  destruct (nth_error a (Z.to_nat j)) as [x|] eqn:E; [|reflexivity].
  exfalso. apply H.
  assert (Hlt : (Z.to_nat j < length a)%nat)
    by (apply nth_error_Some; congruence).
  unfold j in *. unfold len.
  destruct (i <? 0)%Z eqn:Ei;
    [apply Z.ltb_lt in Ei | apply Z.ltb_ge in Ei]; unfold len in *; lia.
Qed.

Lemma take_inside {A : Type} (a : list A) (indices : list Z) :
  Forall (in_range (len a)) indices ->
  exists xs,
    take a indices = Ok xs /\
    Forall2 (fun i x =>
               nth_error a (Z.to_nat (if (i <? 0)%Z then i + len a else i))
               = Some x) indices xs.
Proof.
  unfold take. induction 1 as [|i rest Hi Hrest (xs & Hxs & Hall)]; simpl.
  - exists []. split; [reflexivity | constructor].
  - destruct (item_inside a i Hi) as (x & Hx & Hn).
    rewrite Hx, Hxs. simpl. exists (x :: xs).
    split; [reflexivity | constructor; assumption].
Qed.

Lemma take_outside {A : Type} (a : list A) (indices : list Z) :
  ~ Forall (in_range (len a)) indices ->
  take a indices = Raise IndexError.
Proof.
  unfold take. induction indices as [|i rest IH]; intro H; simpl.
  - exfalso. apply H. constructor.
  - destruct (in_range_dec (len a) i) as [Hi | Hi].
    + destruct (item_inside a i Hi) as (x & Hx & _). rewrite Hx. simpl.
      rewrite IH; [reflexivity|].
      intro Hrest. apply H. constructor; assumption.
    + now rewrite (item_outside a i Hi).
Qed.

(** X5.  The two lookups of the scatter plot succeed exactly when every
    index is inside the day, counted from the start or, if negative, from
    the end; as soon as one index is outside they raise [IndexError], and
    they raise nothing else.  On success there is one timestamp and one
    price per index. *)
Theorem scatter_points_index_error {T : Type} (DT : list T)
    (price_array : list R) (indices : list Z) :
  length DT = length price_array ->
  (Forall (in_range (len price_array)) indices ->
   exists xs ys,
     scatter_points DT price_array indices = Ok (xs, ys) /\
     length xs = length indices /\ length ys = length indices) /\
  (~ Forall (in_range (len price_array)) indices ->
   scatter_points DT price_array indices = Raise IndexError).
Proof.
  intro Hlen.
  assert (Hl : len DT = len price_array) by (unfold len; now rewrite Hlen).
  unfold scatter_points. split.
  - intro Hall.
    destruct (take_inside DT indices) as (xs & Hxs & Fx);
      [now rewrite Hl|].
    destruct (take_inside price_array indices Hall) as (ys & Hys & Fy).
    rewrite Hxs, Hys. simpl. exists xs, ys.
    apply Forall2_length in Fx, Fy. auto.
  - intro Hout. rewrite (take_outside DT indices); [reflexivity|].
    now rewrite Hl.
Qed.

Lemma scatter_points_index_error_witness :
  length [10; 20; 30]%Z = length [100; 101; 99] /\
  ~ Forall (in_range (len [100; 101; 99])) [1; 3]%Z /\
  scatter_points [10; 20; 30]%Z [100; 101; 99] [1; 3]%Z = Raise IndexError.
Proof.
  assert (Hout : ~ Forall (in_range (len [100; 101; 99])) [1; 3]%Z).
  { intro H. inversion H as [|? ? _ H']. inversion H' as [|? ? [_ Hlt] _].
    unfold len in Hlt. simpl in Hlt. lia. }
  split; [reflexivity|]. split; [exact Hout|].
  apply (proj2 (scatter_points_index_error [10; 20; 30]%Z [100; 101; 99]
                  [1; 3]%Z eq_refl)).
  exact Hout.
Defined.

Lemma Forall2_from_start {A : Type} (a : list A) (indices : list Z)
    (xs : list A) :
  Forall (fun i => (0 <= i)%Z) indices ->
  Forall2 (fun i x =>
             nth_error a (Z.to_nat (if (i <? 0)%Z then i + len a else i))
             = Some x) indices xs ->
  Forall2 (fun i x => nth_error a (Z.to_nat i) = Some x) indices xs.
Proof.
  intros Hp F. induction F as [|i x l l' Hi F IH]; constructor.
  - inversion Hp as [|? ? Hi0 _]; subst.
    replace (i <? 0)%Z with false in Hi by (symmetry; apply Z.ltb_ge; lia).
    exact Hi.
  - apply IH. now inversion Hp.
Qed.

(** X6.  Whenever the mask is shorter than the price array (as it is for a
    single threshold or for local thresholds aligned to the increments),
    the scatter plot gets one point per flagged increment, and the point of
    a flagged increment is the timestamp and the price at the position just
    after it. *)
Theorem scatter_points_follow_flags {T : Type} (DT : list T)
    (price_array : list R) (mask : list bool) :
  length DT = length price_array ->
  (length mask < length price_array)%nat ->
  exists xs ys,
    scatter_points DT price_array (truncated_indices mask) = Ok (xs, ys) /\
    length xs = count_true mask /\
    length ys = count_true mask /\
    Forall2 (fun idx x => nth_error DT (Z.to_nat idx) = Some x)
            (truncated_indices mask) xs /\
    Forall2 (fun idx y => nth_error price_array (Z.to_nat idx) = Some y)
            (truncated_indices mask) ys.
Proof.
  intros Hlen Hmask.
  assert (Hl : len DT = len price_array) by (unfold len; now rewrite Hlen).
  assert (Hpos : forall idx, In idx (truncated_indices mask) ->
                             (0 < idx < len price_array)%Z).
  { intros idx H. unfold truncated_indices, where_ in H.
    apply in_map_iff in H. destruct H as (j & <- & Hj).
    apply where_from_bounds in Hj. unfold len in *. lia. }
  assert (Hall : Forall (in_range (len price_array)) (truncated_indices mask)).
  { apply Forall_forall. intros idx H. apply Hpos in H.
    unfold in_range. lia. }
  assert (Hp : Forall (fun idx => (0 <= idx)%Z) (truncated_indices mask))
    by (apply Forall_forall; intros idx H; apply Hpos in H; lia).
  unfold scatter_points.
  destruct (take_inside DT (truncated_indices mask)) as (xs & Hxs & Fx);
    [now rewrite Hl|].
  destruct (take_inside price_array (truncated_indices mask) Hall)
    as (ys & Hys & Fy).
  rewrite Hxs, Hys. simpl. exists xs, ys.
  pose proof (Forall2_length Fx) as Lx. pose proof (Forall2_length Fy) as Ly.
  assert (Hc : length (truncated_indices mask) = count_true mask).
  { unfold truncated_indices, where_. rewrite length_map.
    apply where_from_length. }
  split; [reflexivity|]. split; [lia|]. split; [lia|].
  split; apply Forall2_from_start; assumption.
Qed.

Lemma scatter_points_follow_flags_witness :
  length [10; 20; 30; 40]%Z = length [100; 101; 99; 150] /\
  (length [false; true; true] < length [100; 101; 99; 150])%nat /\
  exists xs ys,
    scatter_points [10; 20; 30; 40]%Z [100; 101; 99; 150]
      (truncated_indices [false; true; true]) = Ok (xs, ys) /\
    length xs = count_true [false; true; true] /\
    length ys = count_true [false; true; true] /\
    Forall2 (fun idx x => nth_error [10; 20; 30; 40]%Z (Z.to_nat idx) = Some x)
            (truncated_indices [false; true; true]) xs /\
    Forall2 (fun idx y => nth_error [100; 101; 99; 150] (Z.to_nat idx) = Some y)
            (truncated_indices [false; true; true]) ys.
Proof.
  split; [reflexivity|]. split; [simpl; lia|].
  apply (scatter_points_follow_flags [10; 20; 30; 40]%Z [100; 101; 99; 150]
           [false; true; true]).
  - reflexivity.
  - simpl; lia.
Defined.

(** ** The timestamps kept for the curve *)

(** X7.  [vol_DT] is always a leading part of the timestamps.  With N
    timestamps and prices it has N - window entries when the window is
    between 0 and N; all N entries when the window is negative; and, when
    the window exceeds N, the negative slice bound counts from the end and
    leaves 2N - window entries (none once the window reaches 2N). *)
Theorem vol_DT_lengths {T : Type} (DT : list T) (price_array : list R)
    (window : Z) :
  length DT = length price_array ->
  let n := len price_array in
  let kept :=
    if (window <? 0)%Z then n
    else if (window <=? n)%Z then (n - window)%Z
    else Z.max (2 * n - window) 0 in
  vol_DT DT price_array window = firstn (Z.to_nat kept) DT /\
  len (vol_DT DT price_array window) = kept.
Proof.
  intros Hlen n kept.
  assert (Hl : len DT = n) by (unfold n, len; now rewrite Hlen).
  assert (Hn : (0 <= n)%Z) by (unfold n, len; lia).
  assert (Hk : (0 <= kept <= n)%Z).
  { unfold kept. destruct (window <? 0)%Z eqn:E1;
      [apply Z.ltb_lt in E1; lia | apply Z.ltb_ge in E1].
    destruct (window <=? n)%Z eqn:E2;
      [apply Z.leb_le in E2 | apply Z.leb_gt in E2]; lia. }
  assert (Hv : vol_DT DT price_array window = firstn (Z.to_nat kept) DT).
  { unfold vol_DT, slice, clamp. fold n. rewrite Hl.
    rewrite Z.sub_0_r. cbn [skipn Z.to_nat]. f_equal. f_equal.
    unfold kept.
    destruct (window <? 0)%Z eqn:E1;
      [apply Z.ltb_lt in E1 | apply Z.ltb_ge in E1];
      destruct (window <=? n)%Z eqn:E2;
      [apply Z.leb_le in E2 | apply Z.leb_gt in E2
       | apply Z.leb_le in E2 | apply Z.leb_gt in E2];
      destruct (n - window <? 0)%Z eqn:E3;
      try (apply Z.ltb_lt in E3); try (apply Z.ltb_ge in E3); lia. }
  split; [exact Hv|].
  rewrite Hv. unfold len in *. rewrite length_firstn. lia.
Qed.

Lemma vol_DT_lengths_witness :
  length [10; 20; 30; 40]%Z = length [100; 101; 99; 150] /\
  vol_DT [10; 20; 30; 40]%Z [100; 101; 99; 150] 6 = [10; 20]%Z.
Proof.
  split; [reflexivity|].
  exact (proj1 (vol_DT_lengths [10; 20; 30; 40]%Z [100; 101; 99; 150] 6
                  eq_refl)).
Defined.

(** ** The rolling loop: degenerate block sizes and concatenation *)

Section RollingEdges.

Variables Volatility Pattern : Type.
Variable volatility_pattern : list Volatility -> result Pattern.

(** X8.  A [window_pattern] of zero makes the loop raise [ValueError] (the
    zero step of [range]) before any aggregation; a negative
    [window_pattern] makes the range empty, so the loop forms no slice,
    never calls the aggregation and leaves [small_patterns] empty. *)
Theorem rolling_nonpositive_window (all_vols : list Volatility) (w : Z) :
  (w = 0%Z ->
   small_patterns volatility_pattern all_vols w = Raise ValueError) /\
  ((w < 0)%Z ->
   passed_slices all_vols w = Ok [] /\
   small_patterns volatility_pattern all_vols w = Ok []).
Proof.
  split.
  - intros ->. reflexivity.
  - intro Hw.
    assert (Hr : range 0 (len all_vols - w + 1) w = Ok []).
    { unfold range, range_length.
      replace (w =? 0)%Z with false by (symmetry; apply Z.eqb_neq; lia).
      replace (0 <? w)%Z with false by (symmetry; apply Z.ltb_ge; lia).
      replace (len all_vols - w + 1 <? 0)%Z with false
        by (symmetry; apply Z.ltb_ge; unfold len; lia).
      reflexivity. }
    unfold passed_slices, small_patterns. rewrite Hr. split; reflexivity.
Qed.

Lemma mapM_app {A B : Type} (f : A -> result B) (l1 l2 : list A) :
  mapM f (l1 ++ l2)
  = (ys1 <- mapM f l1 ;; ys2 <- mapM f l2 ;; Ok (ys1 ++ ys2)).
Proof.
  induction l1 as [|x l1 IH]; simpl.
  - destruct (mapM f l2); reflexivity.
  - destruct (f x) as [y|e]; simpl; [|reflexivity].
    rewrite IH. destruct (mapM f l1) as [ys1|e]; simpl; [|reflexivity].
    destruct (mapM f l2); reflexivity.
Qed.

Lemma map_seq_offset {A : Type} (f : nat -> A) (k m : nat) :
  map f (seq k m) = map (fun j => f (k + j)%nat) (seq 0 m).
Proof.
  revert f k; induction m as [|m IH]; intros f k; simpl; [reflexivity|].
  rewrite Nat.add_0_r. f_equal.
  rewrite (IH f (S k)), (IH (fun j => f (k + j)%nat) 1%nat).
  apply map_ext. intro j. f_equal. lia.
Qed.

Lemma block_app_left (a b : list Volatility) (w : Z) (i : nat) :
  ((i + 1) * Z.to_nat w <= length a)%nat ->
  block (a ++ b) w i = block a w i.
Proof.
  intro H. unfold block.
  rewrite skipn_app, firstn_app, length_skipn.
  replace (Z.to_nat w - (length a - i * Z.to_nat w))%nat with 0%nat by lia.
  rewrite firstn_O. apply app_nil_r.
Qed.

Lemma block_app_right (a b : list Volatility) (w : Z) (k j : nat) :
  length a = (k * Z.to_nat w)%nat ->
  block (a ++ b) w (k + j) = block b w j.
Proof.
  intro H. unfold block.
  rewrite skipn_app.
  rewrite (skipn_all2 a) by lia. simpl.
  f_equal. f_equal. lia.
Qed.

(** X9.  The loop works block by block: when the first list holds a whole
    number of blocks, the patterns of a concatenation are the patterns of
    the first list followed by the patterns of the second one, and the
    first exception met in that order is the one raised. *)
Theorem rolling_patterns_append (a b : list Volatility) (w : Z) (k : nat) :
  (0 < w)%Z ->
  length a = (k * Z.to_nat w)%nat ->
  small_patterns volatility_pattern (a ++ b) w
  = (pa <- small_patterns volatility_pattern a w ;;
     pb <- small_patterns volatility_pattern b w ;;
     Ok (pa ++ pb)).
Proof.
  intros Hw Ha.
  rewrite !small_patterns_slices.
  rewrite !passed_slices_blocks by assumption. simpl.
  assert (Hka : Z.to_nat (len a / w) = k).
  { unfold len. rewrite Ha.
    replace (Z.of_nat (k * Z.to_nat w)) with (Z.of_nat k * w)%Z by lia.
    rewrite Z.div_mul by lia. lia. }
  assert (Hkab : Z.to_nat (len (a ++ b) / w)
                 = (k + Z.to_nat (len b / w))%nat).
  { unfold len. rewrite length_app, Ha.
    replace (Z.of_nat (k * Z.to_nat w + length b))
      with (Z.of_nat k * w + Z.of_nat (length b))%Z by lia.
    rewrite Z.div_add_l by lia.
    pose proof (Z.div_pos (Z.of_nat (length b)) w). lia. }
  rewrite Hka, Hkab, seq_app, map_app, mapM_app. simpl.
  replace (map (block (a ++ b) w) (seq 0 k)) with (map (block a w) (seq 0 k)).
  2:{ apply map_ext_in. intros i Hi. apply in_seq in Hi.
      symmetry. apply block_app_left. nia. }
  replace (map (block (a ++ b) w) (seq k (Z.to_nat (len b / w))))
    with (map (block b w) (seq 0 (Z.to_nat (len b / w)))).
  2:{ rewrite (map_seq_offset (block (a ++ b) w)).
      apply map_ext. intro j. symmetry. now apply block_app_right. }
  reflexivity.
Qed.

End RollingEdges.

Lemma rolling_nonpositive_window_witness :
  (-2 < 0)%Z /\
  passed_slices example_days (-2) = Ok [] /\
  small_patterns Core.volatility_pattern example_days (-2) = Ok [].
Proof.
  split; [lia|].
  apply (proj2 (rolling_nonpositive_window Core.Volatility Core.Pattern
                  Core.volatility_pattern example_days (-2))).
  lia.
Defined.

Lemma rolling_patterns_append_witness :
  (0 < 2)%Z /\
  length [example_day 3 1; example_day 3 2] = (1 * Z.to_nat 2)%nat /\
  small_patterns Core.volatility_pattern
    ([example_day 3 1; example_day 3 2]
     ++ [example_day 2 3; example_day 3 4; example_day 3 5]) 2
  = (pa <- small_patterns Core.volatility_pattern
             [example_day 3 1; example_day 3 2] 2 ;;
     pb <- small_patterns Core.volatility_pattern
             [example_day 2 3; example_day 3 4; example_day 3 5] 2 ;;
     Ok (pa ++ pb)).
Proof.
  split; [lia|]. split; [reflexivity|].
  apply (rolling_patterns_append Core.Volatility Core.Pattern
           Core.volatility_pattern
           [example_day 3 1; example_day 3 2]
           [example_day 2 3; example_day 3 4; example_day 3 5] 2 1).
  - lia.
  - reflexivity.
Defined.

(** ** Degenerate days *)

Lemma sum_repeat (c : R) (n : nat) : Np.sum (repeat c n) = INR n * c.
Proof.
  induction n as [|n IH]; [simpl; lra|].
  rewrite S_INR. simpl. rewrite IH. lra.
Qed.

Lemma std_repeat (c : R) (n : nat) : Np.std (repeat c n) = 0.
Proof.
  unfold Np.std.
  replace (Np.var (repeat c n)) with 0; [apply sqrt_0|].
  unfold Np.var. rewrite map_repeat.
  unfold Np.mean at 1. rewrite sum_repeat, repeat_length.
  destruct n as [|n].
  - simpl. lra.
  - replace (Np.mean (repeat c (S n))) with c.
    + unfold Rdiv. rewrite !Rmult_assoc.
      replace (c - c) with 0 by lra. lra.
    + unfold Np.mean. rewrite sum_repeat, repeat_length.
      field. apply not_0_INR. discriminate.
Qed.

Section Degenerate.

Variable bipower_average_V : list R -> Z -> R -> result npval.

(** X10.  When the day has increments and every one of them has the same
    non-zero value (a steady drift), STD3 and STD5 return a threshold under
    which every increment of the day is flagged as truncated. *)
Theorem constant_drift_all_flagged (m : string) (c : R) (n : nat)
    (log_price : list R) (window : Z) (delta : R) :
  c <> 0 ->
  (0 < n)%nat ->
  m = "STD3"%string \/ m = "STD5"%string ->
  exists thr,
    truncationValue bipower_average_V m (repeat c n) log_price window delta
      = Ok thr /\
    truncated_points (repeat c n) thr = Ok (repeat true n).
Proof.
  intros Hc _ Hm.
  assert (Hflags : forall k,
            truncated_points (repeat c n)
              (Scalar (Fin (k * Np.std (repeat c n)))) = Ok (repeat true n)).
  { intro k. rewrite std_repeat.
    unfold truncated_points, Np.greater, Np.abs. f_equal.
    rewrite !map_repeat. f_equal. simpl.
    apply Rgtb_true_iff. rewrite Rmult_0_r. apply Rabs_pos_lt. exact Hc. }
  destruct Hm as [-> | ->]; eexists; split; try reflexivity; apply Hflags.
Qed.

End Degenerate.

Lemma constant_drift_all_flagged_witness :
  2 <> 0 /\
  (0 < 4)%nat /\
  ("STD3"%string = "STD3"%string \/ "STD3"%string = "STD5"%string) /\
  exists thr,
    truncationValue (fun _ _ _ => Ok (Num 0)) "STD3" (repeat 2 4)
      [0; 2; 4; 6; 8] 2 1 = Ok thr /\
    truncated_points (repeat 2 4) thr = Ok (repeat true 4).
Proof.
  split; [lra|]. split; [lia|]. split; [left; reflexivity|].
  apply (constant_drift_all_flagged (fun _ _ _ => Ok (Num 0)) "STD3" 2 4
           [0; 2; 4; 6; 8] 2 1).
  - lra.
  - lia.
  - left; reflexivity.
Defined.

(** ** What the threshold selection returns and when it raises *)

Section Selection.

Variable bipower_average_V : list R -> Z -> R -> result npval.

Lemma selection_nonnegative (m : string) (incs lp : list R) (w : Z) (d : R)
    (thr : threshold) :
  truncationValue bipower_average_V m incs lp w d = Ok thr -> nonnegative thr.
Proof.
  unfold truncationValue.
  assert (Hs : forall k, 0 <= k -> 0 <= k * Np.std incs).
  { intros k Hk. pose proof (std_nonneg incs). nra. }
  assert (Hq : forall k x, 0 <= k -> 0 <= k * sqrt x).
  { intros k x Hk. pose proof (sqrt_pos x). nra. }
  assert (Hb : forall k bav, 0 <= k ->
            nonnegative (as_threshold (scaled k (np_sqrt (times bav d))))).
  { intros k [b | bs] Hk; simpl; [now apply Hq|].
    rewrite !map_map. apply Forall_forall. intros t Ht.
    apply in_map_iff in Ht. destruct Ht as (b & <- & _). now apply Hq. }
  destruct (m =? "STD3")%string;
    [intro E; inversion E; simpl; apply Hs; lra|].
  destruct (m =? "STD5")%string;
    [intro E; inversion E; simpl; apply Hs; lra|].
  destruct (m =? "BIVAR3")%string.
  { destruct (bipower_average_V lp w d) as [bav | e]; simpl;
      intro E; inversion E. apply Hb; lra. }
  destruct (m =? "BIVAR5")%string.
  { destruct (bipower_average_V lp w d) as [bav | e]; simpl;
      intro E; inversion E. apply Hb; lra. }
  intro E; inversion E. exact I.
Qed.

Lemma zero_never_greater (xs ts : list R) (mask : list bool) :
  Forall (fun x => x = 0) xs -> Forall (fun t => 0 <= t) ts ->
  broadcast2 Rgtb xs ts = Ok mask -> Forall (fun b => b = false) mask.
Proof.
  intros Hx Ht.
  assert (Hz : forall x t, x = 0 -> 0 <= t -> Rgtb x t = false).
  { intros x t -> H. apply Rgtb_false_iff. exact H. }
  assert (Hzip : forall xs0 ts0,
            Forall (fun x => x = 0) xs0 -> Forall (fun t => 0 <= t) ts0 ->
            Forall (fun b => b = false) (zip_with Rgtb xs0 ts0)).
  { induction xs0 as [|x xs0 IH]; intros [|t ts0] H1 H2; simpl;
      constructor; inversion H1; inversion H2; subst; auto. }
  unfold broadcast2. destruct (Nat.eqb (length xs) (length ts)).
  - intro E; inversion E. now apply Hzip.
  - destruct xs as [|x [|x' xs]].
    + destruct ts as [|t [|t' ts]]; intro E; inversion E.
      constructor.
    + intro E; injection E as <-. inversion Hx; subst.
      apply Forall_map. eapply Forall_impl; [|exact Ht].
      intros t Ht0. now apply Hz.
    + destruct ts as [|t [|t' ts]]; intro E; try discriminate E.
      injection E as <-. inversion Ht; subst.
      apply (proj2 (Forall_map (fun x0 => Rgtb x0 t)
                      (fun b => b = false) (x :: x' :: xs))).
      eapply Forall_impl; [|exact Hx].
      intros y Hy. now apply Hz.
Qed.

(** X12.  A day on which the price never moves (every increment is 0) has
    no flagged increment, whatever the method name and whatever the
    averager returns. *)
Theorem flat_day_never_flagged (m : string) (incs lp : list R) (w : Z) (d : R)
    (thr : threshold) (mask : list bool) :
  Forall (fun x => x = 0) incs ->
  truncationValue bipower_average_V m incs lp w d = Ok thr ->
  truncated_points incs thr = Ok mask ->
  Forall (fun b => b = false) mask.
Proof.
  intros Hz H. pose proof (selection_nonnegative m incs lp w d thr H) as Hn.
  unfold truncated_points, Np.greater.
  assert (Ha : Forall (fun x => x = 0) (Np.abs incs)).
  { unfold Np.abs. apply Forall_forall. intros a Hin.
    apply in_map_iff in Hin. destruct Hin as (x & <- & Hx).
    rewrite Forall_forall in Hz. rewrite (Hz x Hx). apply Rabs_R0. }
  destruct thr as [[t |] | ts]; simpl in Hn.
  - intro E; inversion E. apply Forall_forall. intros b Hb.
    apply in_map_iff in Hb. destruct Hb as (a & <- & Hin).
    rewrite Forall_forall in Ha. rewrite (Ha a Hin).
    simpl. apply Rgtb_false_iff. exact Hn.
  - intro E; inversion E. apply Forall_forall. intros b Hb.
    apply in_map_iff in Hb. destruct Hb as (a & <- & _). reflexivity.
  - now apply zero_never_greater.
Qed.

(** X18.  For a day with increments, and when the averager's values times
    [delta] are not negative, a threshold the selection returns is never
    negative: it is [np.inf], a non-negative float, or an array of
    non-negative floats, whatever the method name. *)
Theorem thresholds_nonnegative (m : string) (incs lp : list R) (w : Z) (d : R)
    (thr : threshold) :
  incs <> [] ->
  (forall bav, bipower_average_V lp w d = Ok bav -> root_defined bav d) ->
  truncationValue bipower_average_V m incs lp w d = Ok thr ->
  nonnegative thr.
Proof.
  intros _ _. apply selection_nonnegative.
Qed.

(** X13.  The threshold selection raises only through the averager: it
    raises an exception exactly when the method is BIVAR3 or BIVAR5 and
    [bipower_average_V] raises that exception; for every other method name
    it returns a threshold without consulting the averager. *)
Theorem selection_raises_only_through_averager
    (m : string) (incs lp : list R) (w : Z) (d : R) (e : exn) :
  truncationValue bipower_average_V m incs lp w d = Raise e <->
  (m = "BIVAR3"%string \/ m = "BIVAR5"%string) /\
  bipower_average_V lp w d = Raise e.
Proof.
  unfold truncationValue.
  destruct (m =? "STD3")%string eqn:E1.
  { apply String.eqb_eq in E1. subst m. split; [discriminate|].
    intros [[H | H] _]; discriminate. }
  destruct (m =? "STD5")%string eqn:E2.
  { apply String.eqb_eq in E2. subst m. split; [discriminate|].
    intros [[H | H] _]; discriminate. }
  destruct (m =? "BIVAR3")%string eqn:E3.
  { apply String.eqb_eq in E3. subst m.
    destruct (bipower_average_V lp w d) as [bav | e']; simpl.
    - split; [discriminate | intros [_ H]; discriminate].
    - split; [intro H; split; [now left | congruence] | intros [_ H]; congruence]. }
  destruct (m =? "BIVAR5")%string eqn:E4.
  { apply String.eqb_eq in E4. subst m.
    destruct (bipower_average_V lp w d) as [bav | e']; simpl.
    - split; [discriminate | intros [_ H]; discriminate].
    - split; [intro H; split; [now right | congruence] | intros [_ H]; congruence]. }
  apply String.eqb_neq in E3, E4.
  split; [discriminate | intros [[H | H] _]; contradiction].
Qed.

(** X14.  For every method name other than BIVAR3 and BIVAR5 (the
    configured STD3 among them) the inline logic, from the prices to the
    flags, never raises and yields one flag per increment, that is one
    fewer than there are prices. *)
Theorem flags_total_without_averager
    (m : string) (price_array : list R) (w : Z) (d : R) :
  m <> "BIVAR3"%string -> m <> "BIVAR5"%string ->
  exists mask,
    flags bipower_average_V m price_array w d = Ok mask /\
    length mask = pred (length price_array).
Proof.
  intros H3 H5. unfold flags. rewrite increments_diffs. simpl.
  assert (Hlen : forall f : R -> bool,
            length (map f (Np.abs (Core.diffs (log_price price_array))))
            = pred (length price_array)).
  { intro f. unfold Np.abs.
    now rewrite !length_map, diffs_length, log_price_length. }
  apply String.eqb_neq in H3, H5.
  unfold truncationValue. rewrite H3, H5.
  destruct (m =? "STD3")%string; [simpl; eexists; split; [reflexivity | apply Hlen]|].
  destruct (m =? "STD5")%string; simpl; eexists; split;
    try reflexivity; apply Hlen.
Qed.

End Selection.

Lemma flat_day_never_flagged_witness :
  Forall (fun x => x = 0) [0; 0] /\
  truncationValue (fun _ _ _ => Ok (Arr [4; 9])) "BIVAR3" [0; 0] [5; 5; 5] 2 1
    = Ok (as_threshold (scaled 3 (np_sqrt (times (Arr [4; 9]) 1)))) /\
  truncated_points [0; 0]
    (as_threshold (scaled 3 (np_sqrt (times (Arr [4; 9]) 1))))
    = Ok [false; false] /\
  Forall (fun b => b = false) [false; false].
Proof.
  assert (Hz : Forall (fun x => x = 0) [0; 0]) by (repeat constructor).
  assert (Hm : truncated_points [0; 0]
                 (as_threshold (scaled 3 (np_sqrt (times (Arr [4; 9]) 1))))
               = Ok [false; false]).
  { unfold truncated_points; simpl. unfold broadcast2; simpl.
    rewrite Rabs_R0.
    replace (Rgtb 0 (3 * sqrt (4 * 1))) with false
      by (symmetry; apply Rgtb_false_iff;
          pose proof (sqrt_pos (4 * 1)); lra).
    replace (Rgtb 0 (3 * sqrt (9 * 1))) with false
      by (symmetry; apply Rgtb_false_iff;
          pose proof (sqrt_pos (9 * 1)); lra).
    reflexivity. }
  split; [exact Hz|]. split; [reflexivity|]. split; [exact Hm|].
  apply (flat_day_never_flagged (fun _ _ _ => Ok (Arr [4; 9])) "BIVAR3"
           [0; 0] [5; 5; 5] 2 1
           (as_threshold (scaled 3 (np_sqrt (times (Arr [4; 9]) 1))))
           [false; false] Hz eq_refl Hm).
Defined.

Lemma thresholds_nonnegative_witness :
  [1; -3] <> [] /\
  (forall bav,
      (fun (_ : list R) (_ : Z) (_ : R) => Ok (Arr [4; 9])) [0; 1; -2] 2%Z 1
        = Ok bav -> root_defined bav 1) /\
  truncationValue (fun _ _ _ => Ok (Arr [4; 9])) "BIVAR3" [1; -3] [0; 1; -2] 2 1
    = Ok (as_threshold (scaled 3 (np_sqrt (times (Arr [4; 9]) 1)))) /\
  nonnegative (as_threshold (scaled 3 (np_sqrt (times (Arr [4; 9]) 1)))).
Proof.
  assert (Hr : forall bav,
      (fun (_ : list R) (_ : Z) (_ : R) => Ok (Arr [4; 9])) [0; 1; -2] 2%Z 1
        = Ok bav -> root_defined bav 1).
  { intros bav E. inversion E. simpl. repeat constructor; lra. }
  split; [discriminate|]. split; [exact Hr|]. split; [reflexivity|].
  apply (thresholds_nonnegative (fun _ _ _ => Ok (Arr [4; 9])) "BIVAR3"
           [1; -3] [0; 1; -2] 2 1
           (as_threshold (scaled 3 (np_sqrt (times (Arr [4; 9]) 1))))).
  - discriminate.
  - exact Hr.
  - reflexivity.
Defined.

Lemma flags_total_without_averager_witness :
  "STD3"%string <> "BIVAR3"%string /\ "STD3"%string <> "BIVAR5"%string /\
  exists mask,
    flags (fun _ _ _ => Raise ValueError) "STD3" [100; 101; 99; 150; 101] 300 1
      = Ok mask /\
    length mask = pred (length [100; 101; 99; 150; 101]).
Proof.
  split; [discriminate|]. split; [discriminate|].
  apply (flags_total_without_averager (fun _ _ _ => Raise ValueError) "STD3"
           [100; 101; 99; 150; 101] 300 1); discriminate.
Defined.

(** ** From file names to dates *)

Section FileNames.

Local Open Scope string_scope.

Lemma prefix_empty (r : string) : String.prefix "" r = true.
Proof. destruct r; reflexivity. Qed.

Lemma prefix_app (p r : string) : String.prefix p (p ++ r) = true.
Proof.
  induction p as [|a p IH]; simpl; [apply prefix_empty|].
  destruct (Ascii.ascii_dec a a); [exact IH | congruence].
Qed.

Lemma prefix_split (p s : string) :
  String.prefix p s = true -> exists r, s = p ++ r.
Proof.
  revert s; induction p as [|a p IH]; intros s H; simpl in *.
  - exists s. reflexivity.
  - destruct s as [|b s]; [discriminate|]. simpl in H.
    destruct (Ascii.ascii_dec a b) as [E | E]; [subst b | discriminate].
    destruct (IH s H) as [r Hr]. exists r. now rewrite Hr.
Qed.

Lemma append_assoc (a b c : string) : (a ++ b) ++ c = a ++ (b ++ c).
Proof. induction a as [|x a IH]; simpl; [reflexivity | now rewrite IH]. Qed.

Lemma append_empty (a : string) : a ++ "" = a.
Proof. induction a as [|x a IH]; simpl; [reflexivity | now rewrite IH]. Qed.

Lemma occurs_app (c : Ascii.ascii) (a b : string) :
  occurs c (a ++ b) = occurs c a || occurs c b.
Proof.
  induction a as [|x a IH]; simpl; [reflexivity|].
  now rewrite IH, orb_assoc.
Qed.

Lemma prefix_one (c x : Ascii.ascii) (r : string) :
  String.prefix (String c "") (String x r) = Ascii.eqb x c.
Proof.
  simpl. destruct (Ascii.ascii_dec c x) as [E | Hne].
  - subst x. now rewrite Ascii.eqb_refl, prefix_empty.
  - symmetry. apply Ascii.eqb_neq. congruence.
Qed.

Lemma prefix_head_differs (c x : Ascii.ascii) (p r : string) :
  Ascii.eqb x c = false -> String.prefix (String c p) (String x r) = false.
Proof.
  intro H. cbn [String.prefix].
  destruct (Ascii.ascii_dec c x) as [E | E]; [|reflexivity].
  subst x. rewrite Ascii.eqb_refl in H. discriminate.
Qed.

Lemma split_from_nonempty (sep : string) (skip : nat) (cur s : string) :
  exists q rest, Str.split_from sep skip cur s = (q :: rest)%list.
Proof.
  revert skip cur; induction s as [|x s IH]; intros skip cur;
    cbn [Str.split_from].
  - eauto.
  - destruct skip; [|apply IH].
    destruct (String.prefix sep (String x s)); [eauto | apply IH].
Qed.

Lemma split_at_first_underscore (a cur rest : string) :
  occurs "_"%char a = false ->
  Str.split_from "_" 0 cur (a ++ String "_"%char rest)
  = ((cur ++ a)%string :: Str.split_from "_" 0 "" rest)%list.
Proof.
  revert cur; induction a as [|x a IH]; intros cur H.
  - cbn [append Str.split_from]. rewrite prefix_one, Ascii.eqb_refl.
    now rewrite append_empty.
  - simpl in H. apply orb_false_iff in H. destruct H as [Hx Ha].
    cbn [append Str.split_from]. rewrite prefix_one.
    rewrite Hx, (IH _ Ha), append_assoc. reflexivity.
Qed.

Lemma split_without_underscore (s cur : string) :
  occurs "_"%char s = false ->
  Str.split_from "_" 0 cur s = [(cur ++ s)%string]%list.
Proof.
  revert cur; induction s as [|x s IH]; intros cur H.
  - simpl. now rewrite append_empty.
  - simpl in H. apply orb_false_iff in H. destruct H as [Hx Hs].
    cbn [Str.split_from]. rewrite prefix_one.
    rewrite Hx, (IH _ Hs), append_assoc. reflexivity.
Qed.

Lemma replace_trailing_csv (d : string) :
  occurs "."%char d = false -> Str.replace_from ".csv" "" 0 (d ++ ".csv") = d.
Proof.
  induction d as [|x d IH]; intro H.
  - reflexivity.
  - simpl in H. apply orb_false_iff in H. destruct H as [Hx Hd].
    cbn [append Str.replace_from].
    rewrite (prefix_head_differs "."%char x "csv" (d ++ ".csv") Hx).
    now rewrite (IH Hd).
Qed.

(** X15.  A file named [asset_DATE.csv], where the asset has no underscore
    and the date has neither an underscore nor a dot, passes the filter of
    the asset and gives back exactly its date. *)
Theorem date_of_file_name (asset d : string) :
  occurs "_"%char asset = false ->
  occurs "_"%char d = false ->
  occurs "."%char d = false ->
  Str.startswith (asset ++ "_" ++ d ++ ".csv") (asset ++ "_") = true /\
  Files.date_of (asset ++ "_" ++ d ++ ".csv") = Ok d.
Proof.
  intros Ha Hd Hdot. split.
  - unfold Str.startswith. rewrite <- append_assoc. apply prefix_app.
  - unfold Files.date_of, Str.split.
    change ("_" ++ d ++ ".csv") with (String "_"%char (d ++ ".csv")).
    rewrite (split_at_first_underscore asset "" (d ++ ".csv") Ha).
    rewrite split_without_underscore
      by (rewrite occurs_app, Hd; reflexivity).
    cbn [bind]. unfold item; simpl. unfold Str.replace.
    now rewrite replace_trailing_csv.
Qed.

Lemma date_of_prefixed (asset f : string) :
  Str.startswith f (asset ++ "_") = true ->
  exists d, Files.date_of f = Ok d.
Proof.
  unfold Str.startswith. intro H.
  destruct (prefix_split _ _ H) as [r ->].
  rewrite append_assoc.
  change ("_" ++ r) with (String "_"%char r).
  assert (Hsplit : forall a cur, exists p q rest,
            Str.split_from "_" 0 cur (a ++ String "_"%char r)
            = (p :: q :: rest)%list).
  { induction a as [|x a IH]; intro cur.
    - cbn [append Str.split_from]. rewrite prefix_one, Ascii.eqb_refl.
      change (String.length "_" - 1)%nat with 0%nat.
      destruct (split_from_nonempty "_" 0 "" r) as (q & rest & ->). eauto.
    - cbn [append Str.split_from]. rewrite prefix_one.
      change (String.length "_" - 1)%nat with 0%nat.
      destruct (Ascii.eqb x "_"); [|apply IH].
      destruct (split_from_nonempty "_" 0 ""
                  (a ++ String "_"%char r)) as (q & rest & ->). eauto. }
  destruct (Hsplit asset "") as (p & q & rest & Hs).
  unfold Files.date_of, Str.split. rewrite Hs. cbn [bind].
  unfold item; simpl. eauto.
Qed.

(** X16.  Extracting the dates never fails on the files that passed the
    filter (the part after the first underscore always exists): there is
    one date per such file, and the only exception of this stage is the
    [ValueError] of the explicit check, raised exactly when fewer than
    [N_examples] files belong to the asset. *)
Theorem dates_of_filtered_files (price_files : list string) (asset : string)
    (N_examples : Z) :
  exists dates,
    Files.all_dates (Files.all_price_files price_files asset) = Ok dates /\
    length dates = length (Files.all_price_files price_files asset) /\
    Files.checked_dates price_files asset N_examples
    = if (len (Files.all_price_files price_files asset) <? N_examples)%Z
      then Raise ValueError else Ok dates.
Proof.
  destruct (mapM_total Files.date_of
              (Files.all_price_files price_files asset))
    as (dates & Hd & Hl).
  { apply Forall_forall. intros f Hf.
    unfold Files.all_price_files in Hf. apply filter_In in Hf.
    destruct Hf as [_ Hf]. now apply (date_of_prefixed asset). }
  exists dates. split; [exact Hd|]. split; [exact Hl|].
  unfold Files.checked_dates, Files.all_dates. rewrite Hd. cbn [bind].
  unfold len. now rewrite Hl.
Qed.

End FileNames.

Lemma date_of_file_name_witness :
  occurs "_"%char "spy" = false /\
  occurs "_"%char "2020-01-02" = false /\
  occurs "."%char "2020-01-02" = false /\
  Str.startswith ("spy" ++ "_" ++ "2020-01-02" ++ ".csv")%string
                 ("spy" ++ "_")%string = true /\
  Files.date_of ("spy" ++ "_" ++ "2020-01-02" ++ ".csv")%string
    = Ok "2020-01-02"%string.
Proof.
  split; [reflexivity|]. split; [reflexivity|]. split; [reflexivity|].
  apply (date_of_file_name "spy" "2020-01-02"); reflexivity.
Defined.

Example underscore_in_asset :
  Files.date_of "brk_b_2020-01-02.csv" = Ok "b"%string.
Proof. reflexivity. Qed.

Example split_keeps_empty_parts :
  Str.split "a_b__c" "_" = Ok ["a"; "b"; ""; "c"]%string.
Proof. reflexivity. Qed.

Example replace_does_not_overlap :
  Str.replace "aaa" "aa" "b" = "ba"%string.
Proof. reflexivity. Qed.

(** ** From the prices to the highlighted positions *)

Lemma nth_error_in_bounds {A : Type} (l : list A) (i : nat) :
  (i < length l)%nat -> exists x, nth_error l i = Some x.
Proof.
  intro H. destruct (nth_error l i) as [x|] eqn:E; [eauto|].
  apply nth_error_None in E. lia.
Qed.

Lemma flag_of_position (lp : list R) (t : ext) (i : nat) :
  nth_error (map (fun x => gtb_ext x t) (Np.abs (Core.diffs lp))) i = Some true
  <-> exists a b,
        nth_error lp i = Some a /\ nth_error lp (S i) = Some b /\
        exceeds (Rabs (b - a)) t.
Proof.
  split.
  - intro H.
    assert (Hi : (i < pred (length lp))%nat).
    { rewrite <- diffs_length.
      assert (Hs : nth_error (map (fun x => gtb_ext x t)
                                (Np.abs (Core.diffs lp))) i <> None)
        by congruence.
      apply nth_error_Some in Hs. unfold Np.abs in Hs.
      now rewrite !length_map in Hs. }
    destruct (nth_error_in_bounds lp i) as [a Ha]; [lia|].
    destruct (nth_error_in_bounds lp (S i)) as [b Hb]; [lia|].
    exists a, b. split; [exact Ha|]. split; [exact Hb|].
    rewrite (scalar_flag (Core.diffs lp) t i (b - a)
               (diffs_nth_error lp i a b Ha Hb)) in H.
    apply gtb_ext_true_iff. congruence.
  - intros (a & b & Ha & Hb & He).
    rewrite (scalar_flag (Core.diffs lp) t i (b - a)
               (diffs_nth_error lp i a b Ha Hb)).
    f_equal. now apply gtb_ext_true_iff.
Qed.

(** X17.  From positive prices to the red dots, for a single threshold: a
    position is highlighted if and only if it is at least 1, holds a price,
    and the logarithm of that price differs from the logarithm of the price
    just before it by more than the threshold in absolute value. *)
Theorem highlighted_after_large_moves (price_array : list R) (t : ext) :
  Forall (fun p => 0 < p) price_array ->
  exists incs mask,
    increments (log_price price_array) = Ok incs /\
    truncated_points incs (Scalar t) = Ok mask /\
    forall idx,
      In idx (truncated_indices mask) <->
      (1 <= idx)%Z /\
      exists p q,
        nth_error price_array (Z.to_nat (idx - 1)) = Some p /\
        nth_error price_array (Z.to_nat idx) = Some q /\
        exceeds (Rabs (ln q - ln p)) t.
Proof.
  intros _. rewrite increments_diffs.
  exists (Core.diffs (log_price price_array)).
  eexists; split; [reflexivity|]. split; [reflexivity|].
  intro idx. unfold truncated_indices, where_. rewrite in_map_iff.
  assert (Hlog : forall i x,
            nth_error (log_price price_array) i = Some x <->
            exists p, nth_error price_array i = Some p /\ x = ln p).
  { intros i x. unfold log_price, Np.log. rewrite nth_error_map.
    destruct (nth_error price_array i) as [p|]; simpl.
    - split; [intro E; inversion E; eauto|].
      intros (p' & E & ->). now inversion E.
    - split; [discriminate | intros (p' & E & _); discriminate]. }
  split.
  - intros (j & <- & Hj). apply where_from_iff in Hj.
    destruct Hj as [H0 Hn]. rewrite Z.sub_0_r in Hn.
    apply flag_of_position in Hn. destruct Hn as (a & b & Ha & Hb & He).
    apply Hlog in Ha, Hb. destruct Ha as (p & Hp & ->).
    destruct Hb as (q & Hq & ->).
    split; [lia|]. exists p, q.
    replace (Z.to_nat (j + 1 - 1)) with (Z.to_nat j) by lia.
    replace (Z.to_nat (j + 1)) with (S (Z.to_nat j)) by lia.
    auto.
  - intros (H1 & p & q & Hp & Hq & He).
    exists (idx - 1)%Z. split; [lia|].
    apply where_from_iff. split; [lia|]. rewrite Z.sub_0_r.
    apply flag_of_position. exists (ln p), (ln q).
    split; [apply Hlog; eauto|].
    split; [|exact He].
    replace (S (Z.to_nat (idx - 1))) with (Z.to_nat idx) by lia.
    apply Hlog; eauto.
Qed.

Lemma highlighted_after_large_moves_witness :
  Forall (fun p => 0 < p) [100; 101; 99; 150; 101] /\
  exists incs mask,
    increments (log_price [100; 101; 99; 150; 101]) = Ok incs /\
    truncated_points incs (Scalar (Fin (1/10))) = Ok mask /\
    forall idx,
      In idx (truncated_indices mask) <->
      (1 <= idx)%Z /\
      exists p q,
        nth_error [100; 101; 99; 150; 101] (Z.to_nat (idx - 1)) = Some p /\
        nth_error [100; 101; 99; 150; 101] (Z.to_nat idx) = Some q /\
        exceeds (Rabs (ln q - ln p)) (Fin (1/10)).
Proof.
  assert (Hp : Forall (fun p => 0 < p) [100; 101; 99; 150; 101])
    by (repeat constructor; lra).
  split; [exact Hp|].
  apply (highlighted_after_large_moves [100; 101; 99; 150; 101] (Fin (1/10))).
  exact Hp.
Defined.
